(** * A port scanner: catalog lookup, single probe, scan loop and console report

    Shallow embedding of [scanner.py].  Python values that reach the code
    are modelled as data (decoded JSON, result dicts as records), raised
    exceptions as an explicit outcome, and the effects of the program
    (console lines, sockets, submitted tasks, files) as a [world] that is
    threaded through a state-and-exception monad.  Whatever the program
    cannot decide by itself (the network, the scheduler of the thread pool,
    the wall clock, the moments at which SIGINTs arrive, the file system)
    enters as data.  Worker threads are linearised: a task runs to its end
    at the moment its future is yielded to the main thread, or while the
    main thread waits for the pool to shut down. *)

From Stdlib Require Import ZArith List String Ascii DecimalString Bool Lia.
From Stdlib Require Import Permutation Sorted.
From ExtLib Require Import Structures.Monad.
Import ListNotations.
Import MonadNotation.
Local Open Scope string_scope.
Local Open Scope Z_scope.
Local Open Scope monad_scope.

(** ** Python values, exceptions and control *)

Module Py.

(** The exception classes the program meets.  Every constructor is a
    subclass of [Exception]; [KeyboardInterrupt], which is not, is the
    separate outcome [Interrupt]. *)
Inductive exn : Type :=
| KeyError
| IndexError
| TypeError
| AttributeError
| ValueError
| OverflowError
| ZeroDivisionError
| OSError                      (* socket.error *)
| SocketTimeout                (* socket.timeout, a subclass of OSError *)
| GaiError                     (* socket.gaierror, a subclass of OSError *)
| OtherError (name : string).  (* any other subclass of Exception *)

(** How the evaluation of an expression or a block ends. *)
Inductive outcome (A : Type) : Type :=
| Ret (a : A)
| Raise (e : exn)
| Interrupt.

Arguments Ret {A} a.
Arguments Raise {A} e.
Arguments Interrupt {A}.

#[export] Instance Monad_outcome : Monad outcome :=
  {| ret := fun _ a => Ret a;
     bind := fun _ _ c k =>
       match c with
       | Ret a => k a
       | Raise e => Raise e
       | Interrupt => Interrupt
       end |}.

(** A computation over a state [S]: the state survives a raised exception,
    as assignments and output made before a Python [raise] do. *)
Definition M (S A : Type) : Type := S -> outcome A * S.

#[export] Instance Monad_M {S : Type} : Monad (M S) :=
  {| ret := fun _ a s => (Ret a, s);
     bind := fun _ _ c k s =>
       match c s with
       | (Ret a, s') => k a s'
       | (Raise e, s') => (Raise e, s')
       | (Interrupt, s') => (Interrupt, s')
       end |}.

Definition raise {S A : Type} (e : exn) : M S A := fun s => (Raise e, s).

(** A pure expression evaluated inside a stateful block. *)
Definition eval {S A : Type} (o : outcome A) : M S A := fun s => (o, s).

Definition modify {S : Type} (f : S -> S) : M S unit := fun s => (Ret tt, f s).

Definition gets {S A : Type} (f : S -> A) : M S A := fun s => (Ret (f s), s).

(** [try: body except classes: handler] for exception classes below
    [Exception]; a [KeyboardInterrupt] passes through. *)
Definition try_except {S A : Type}
    (body : M S A) (classes : exn -> bool) (handler : exn -> M S A) : M S A :=
  fun s =>
    match body s with
    | (Raise e, s') => if classes e then handler e s' else (Raise e, s')
    | r => r
    end.

(** [try: body except KeyboardInterrupt: handler]. *)
Definition try_except_interrupt {S A : Type} (body handler : M S A) : M S A :=
  fun s =>
    match body s with
    | (Interrupt, s') => handler s'
    | r => r
    end.

(** [try: body finally: cleanup]: the cleanup runs on every exit of the
    body; the body's outcome stands unless the cleanup itself fails. *)
Definition try_finally {S A : Type} (body : M S A) (cleanup : M S unit) : M S A :=
  fun s =>
    let '(r, s') := body s in
    match cleanup s' with
    | (Ret _, s'') => (r, s'')
    | (Raise e, s'') => (Raise e, s'')
    | (Interrupt, s'') => (Interrupt, s'')
    end.

(** [except Exception] and [except (socket.timeout, socket.error)]. *)
Definition is_Exception (e : exn) : bool := true.

Definition is_socket_error (e : exn) : bool :=
  match e with
  | OSError | SocketTimeout | GaiError => true
  | _ => false
  end.

Definition is_KeyError_or_IndexError (e : exn) : bool :=
  match e with
  | KeyError | IndexError => true
  | _ => false
  end.

(** A value decoded by [json.load]: a dict is kept as its list of items,
    looked up by key; numbers are kept as integers (no function below
    tells an integer from a fraction). *)
#[warnings="-register-all"]
Inductive json : Type :=
| JNull
| JBool (b : bool)
| JNum (n : Z)
| JStr (s : string)
| JArr (items : list json)
| JObj (fields : list (string * json)).

Fixpoint dict_get (key : string) (fields : list (string * json)) : option json :=
  match fields with
  | [] => None
  | (k, v) :: rest => if String.eqb key k then Some v else dict_get key rest
  end.

(** [str(n)] for an int. *)
Definition str (n : Z) : string := NilZero.string_of_int (Z.to_int n).

(** [needle in hay] for two strings. *)
Fixpoint str_contains (needle hay : string) : bool :=
  if String.prefix needle hay then true
  else match hay with
       | EmptyString => false
       | String _ rest => str_contains needle rest
       end.

(** [s == v] for a string [s] and a decoded value [v]. *)
Definition str_equals (s : string) (v : json) : bool :=
  match v with
  | JStr t => String.eqb s t
  | _ => false
  end.

(** [key in container]. *)
Definition contains (key : string) (container : json) : outcome bool :=
  match container with
  | JObj fields =>
      match dict_get key fields with
      | Some _ => Ret true
      | None => Ret false
      end
  | JArr items => Ret (existsb (str_equals key) items)
  | JStr s => Ret (str_contains key s)
  | _ => Raise TypeError
  end.

(** [container[key]] for a string key. *)
Definition getitem (container : json) (key : string) : outcome json :=
  match container with
  | JObj fields =>
      match dict_get key fields with
      | Some v => Ret v
      | None => Raise KeyError
      end
  | _ => Raise TypeError
  end.

(** [isinstance(v, list)]. *)
Definition is_list (v : json) : bool :=
  match v with
  | JArr _ => true
  | _ => false
  end.

(** [v[0]] for a list [v]. *)
Definition first_item (v : json) : outcome json :=
  match v with
  | JArr (x :: _) => Ret x
  | JArr [] => Raise IndexError
  | _ => Raise TypeError
  end.

(** [v.get(key, default)]: only a dict has the method. *)
Definition dict_get_default (v : json) (key : string) (default : json) : outcome json :=
  match v with
  | JObj fields =>
      match dict_get key fields with
      | Some x => Ret x
      | None => Ret default
      end
  | _ => Raise AttributeError
  end.

(** [len(v)]. *)
Definition len (v : json) : outcome Z :=
  match v with
  | JObj fields => Ret (Z.of_nat (List.length fields))
  | JArr items => Ret (Z.of_nat (List.length items))
  | JStr s => Ret (Z.of_nat (String.length s))
  | _ => Raise TypeError
  end.

(** [a / b] where the quotient is a float that only an f-string formats:
    what is kept is whether the division raises. *)
Definition truediv (a b : Z) : outcome unit :=
  if b =? 0 then Raise ZeroDivisionError else Ret tt.

(** [range(a, b)]. *)
Definition range (a b : Z) : list Z :=
  map (fun i => a + Z.of_nat i) (seq 0 (Z.to_nat (b - a))).

End Py.

Import Py.

(** ** The world outside the interpreter *)

Inductive status_t : Type := OPEN | CLOSED.

(** The dict built by [check_port]: keys "port", "status", "service". *)
Record probe_result : Type :=
  { port : Z; status : status_t; service : json }.

(** What [socket.socket] and [connect_ex] do for one (host, port): the
    network and the operating system decide. *)
Inductive attempt : Type :=
| SocketFails                    (* socket.socket raises OSError *)
| ConnectReturns (code : Z)      (* connect_ex returns an errno, 0 on success *)
| ConnectRaises (e : exn).       (* connect_ex raises *)

Definition network : Type := string -> Z -> attempt.

(** One [print] call.  The fields are the values the f-string formats;
    [Progress] leaves out the percentage and the rate, which are floats
    computed from the wall clock. *)
Inductive message : Type :=
| LoadedEntries (n : Z)
| CouldNotLoad (e : exn)
| FoundOpenPort (p : Z) (label : json)
| Progress (scanned total : Z)
| ErrorScanning (p : Z) (e : exn)
| ScanInterrupted
| StartingScan (host : string)
| NoOpenPortsFound
| ResultsWritten (path : string)
| OpenPortsHeader
| PortLine (p : Z) (label : json)
| MainInterrupted.

(** A report file: which renderer wrote it, for which host and results. *)
Inductive report : Type :=
| HtmlReport (host : string) (rows : list probe_result)
| TextReport (host : string) (rows : list probe_result).

Record world : Type :=
  { stdout : list message;          (* console, oldest line first *)
    open_socks : list nat;         (* socket handles not yet closed *)
    next_sock : nat;               (* the handle the next socket gets *)
    submitted : list Z;            (* every task given to executor.submit *)
    pool : list Z;                 (* submitted tasks that have not run yet *)
    files : list (string * report) }.

Definition print (o : message) : M world unit :=
  modify (fun w =>
    {| stdout := stdout w ++ [o]; open_socks := open_socks w;
       next_sock := next_sock w; submitted := submitted w; pool := pool w;
       files := files w |}).

(** [socket.socket(AF_INET, SOCK_STREAM)]. *)
Definition socket_socket (a : attempt) : M world nat :=
  match a with
  | SocketFails => raise OSError
  | _ => fun w =>
      (Ret (next_sock w),
       {| stdout := stdout w; open_socks := next_sock w :: open_socks w;
          next_sock := S (next_sock w); submitted := submitted w;
          pool := pool w; files := files w |})
  end.

(** [sock.settimeout(0.5)]. *)
Definition settimeout (sock : nat) : M world unit := ret tt.

(** [sock.connect_ex((host, port))]. *)
Definition connect_ex (a : attempt) (sock : nat) : M world Z :=
  match a with
  | ConnectReturns code => ret code
  | ConnectRaises e => raise e
  | SocketFails => raise OSError
  end.

(** [sock.close()]: closing a closed socket does nothing. *)
Definition sock_close (sock : nat) : M world unit :=
  modify (fun w =>
    {| stdout := stdout w;
       open_socks := filter (fun s => negb (Nat.eqb s sock)) (open_socks w);
       next_sock := next_sock w; submitted := submitted w; pool := pool w;
       files := files w |}).

(** The thread pool: [executor.submit] queues a task, a worker later runs
    it, and leaving the [with] block waits for every queued task. *)
Definition set_pool (submitted' pool' : list Z) (w : world) : world :=
  {| stdout := stdout w; open_socks := open_socks w; next_sock := next_sock w;
     submitted := submitted'; pool := pool'; files := files w |}.

Definition add_file (path : string) (r : report) (w : world) : world :=
  {| stdout := stdout w; open_socks := open_socks w; next_sock := next_sock w;
     submitted := submitted w; pool := pool w;
     files := files w ++ [(path, r)] |}.

Definition remove_task (p : Z) (tasks : list Z) : list Z :=
  filter (fun q => negb (Z.eqb q p)) tasks.

(** The order in which the futures complete is the scheduler's: at each
    step [sched] names which of the pending futures is yielded next (an
    index, taken modulo the number still pending; the first when [sched]
    runs out). *)
Fixpoint drop_nth {A : Type} (i : nat) (l : list A) : list A :=
  match l, i with
  | [], _ => []
  | _ :: rest, O => rest
  | x :: rest, S j => x :: drop_nth j rest
  end.

Fixpoint completion (n : nat) (sched : list nat) (pending : list Z) : list Z :=
  match n, pending with
  | S n', first :: _ =>
      let i := Nat.modulo (hd O sched) (List.length pending) in
      nth i pending first :: completion n' (tl sched) (drop_nth i pending)
  | _, _ => []
  end.

(** [concurrent.futures.as_completed(futures)]. *)
Definition as_completed (sched : list nat) (futures : list Z) : list Z :=
  completion (List.length futures) sched futures.

(** ** class PortScanner *)

Module PortScanner.

(** [__init__]: [ports_file] is what [json.load(open(ports_file))] gives,
    a decoded document or the exception it raised.  The result is
    [self.ports_data]. *)
Definition init (ports_file : exn + json) : M world json :=
  try_except
    (data <- eval (match ports_file with
                   | inr d => Ret d
                   | inl e => Raise e
                   end) ;;
     ports_data <- eval (getitem data "ports") ;;
     n <- eval (len ports_data) ;;
     print (LoadedEntries n) ;;
     ret ports_data)
    is_Exception
    (fun e => print (CouldNotLoad e) ;; ret (JObj [])).

(** [get_service]: [Some v] inside the [try] stands for [return v]; the
    code after the [try] returns "Unknown". *)
Definition get_service (ports_data : json) (port : Z) : outcome json :=
  let port_str := str port in
  let body : outcome (option json) :=
    present <- contains port_str ports_data ;;
    if (present : bool) then
      port_info <- getitem ports_data port_str ;;
      info <- (if is_list port_info then first_item port_info
               else Ret port_info) ;;
      label <- dict_get_default info "description" (JStr "Unknown") ;;
      ret (Some label)
    else ret None in
  match body with
  | Ret (Some label) => Ret label
  | Ret None => Ret (JStr "Unknown")
  | Raise e =>
      if is_KeyError_or_IndexError e then Ret (JStr "Unknown") else Raise e
  | Interrupt => Interrupt
  end.

(** [check_port]: [Some r] inside the [try] stands for [return r]. *)
Definition check_port (ports_data : json) (net : network)
    (host : string) (port : Z) : M world probe_result :=
  sock <- socket_socket (net host port) ;;
  settimeout sock ;;
  returned <-
    try_finally
      (try_except
         (result <- connect_ex (net host port) sock ;;
          sock_close sock ;;
          if result =? 0 then
            service <- eval (get_service ports_data port) ;;
            print (FoundOpenPort port service) ;;
            ret (Some {| port := port; status := OPEN; service := service |})
          else ret None)
         is_socket_error
         (fun _ => ret None))
      (sock_close sock) ;;
  match returned with
  | Some r => ret r
  | None =>
      service <- eval (get_service ports_data port) ;;
      ret {| port := port; status := CLOSED; service := service |}
  end.

(** [sorted(results, key=lambda x: x["port"])], a stable sort. *)
Fixpoint insert_by_port (r : probe_result) (l : list probe_result) : list probe_result :=
  match l with
  | [] => [r]
  | x :: rest =>
      if port r <=? port x then r :: l else x :: insert_by_port r rest
  end.

Fixpoint sorted_by_port (l : list probe_result) : list probe_result :=
  match l with
  | [] => []
  | r :: rest => insert_by_port r (sorted_by_port rest)
  end.

(** The main thread while it runs [scan]: the local variables the loop
    assigns, how many times it has read the wall clock, the world, and the
    SIGINTs that are still to come.  The head [n] of [sigint] says that the
    main thread passes [n] more delivery points (see [tick]) before the
    next signal is delivered at the one after them; the count of the
    following signal starts there.  No signal arrives when the list is
    empty. *)
Record frame : Type :=
  { results : list probe_result;
    ports_scanned : Z;
    time_calls : nat;
    sys : world;
    sigint : list nat }.

Definition set_sigint (pending : list nat) (f : frame) : frame :=
  {| results := results f; ports_scanned := ports_scanned f;
     time_calls := time_calls f; sys := sys f; sigint := pending |}.

Definition in_world {A : Type} (c : M world A) : M frame A :=
  fun f =>
    let '(r, w) := c (sys f) in
    (r, {| results := results f; ports_scanned := ports_scanned f;
           time_calls := time_calls f; sys := w; sigint := sigint f |}).

(** A delivery point: a place in [scan] where the next SIGINT, if its
    time has come, is raised as KeyboardInterrupt.  There is one when
    [scan] is entered (for lines 70 to 73), one before every statement of
    the [try] block that changes [results], the counter, the pool or the
    console, one at the end of the [with] body, one before each task the
    main thread waits for when the pool is shut down, one before the
    [print] of the handler and one before the [return]; a signal that
    arrives anywhere else has the effect of one delivered at the next such
    point. *)
Definition tick : M frame unit :=
  fun f =>
    match sigint f with
    | [] => (Ret tt, f)
    | O :: later => (Interrupt, set_sigint later f)
    | S n :: later => (Ret tt, set_sigint (n :: later) f)
    end.

(** [time.time()]: the wall clock is read, [clock k] being what its
    [k]-th reading in this call of [scan] gives, in units of the clock's
    resolution.  Two readings are the same float exactly when they are the
    same number of units, and their difference is then [0.0]. *)
Definition time_time (clock : nat -> Z) : M frame Z :=
  fun f =>
    (Ret (clock (time_calls f)),
     {| results := results f; ports_scanned := ports_scanned f;
        time_calls := S (time_calls f); sys := sys f; sigint := sigint f |}).

(** [executor.submit(self.check_port, host, port)]. *)
Definition submit (p : Z) : M frame unit :=
  in_world (modify (fun w => set_pool (submitted w ++ [p]) (pool w ++ [p]) w)).

(** A worker takes task [p] off the queue and runs it to its end; what it
    returned or raised is kept in the future. *)
Definition run_task (ports_data : json) (net : network) (host : string) (p : Z)
  : M world (outcome probe_result) :=
  fun w =>
    let '(r, w') :=
      check_port ports_data net host p
        (set_pool (submitted w) (remove_task p (pool w)) w) in
    (Ret r, w').

(** [shutdown(wait=True)] on leaving the [with] block: the main thread
    waits while the workers run the queued tasks, whose results are
    dropped.  A SIGINT delivered during the wait ends it, and the tasks
    that have not run by then stay in the queue. *)
Fixpoint run_all (ports_data : json) (net : network) (host : string)
    (tasks : list Z) : M frame unit :=
  match tasks with
  | [] => ret tt
  | p :: rest =>
      tick ;;
      in_world (run_task ports_data net host p) ;;
      run_all ports_data net host rest
  end.

Definition shutdown (ports_data : json) (net : network) (host : string)
  : M frame unit :=
  waiting <- gets (fun f => pool (sys f)) ;;
  run_all ports_data net host waiting.

(** [with ThreadPoolExecutor(max_workers=threads) as executor: body]; the
    constructor raises ValueError unless [threads] is positive, and the
    new pool starts with an empty queue. *)
Definition with_executor (ports_data : json) (net : network) (host : string)
    (threads : Z) (body : M frame unit) : M frame unit :=
  tick ;;
  if threads <=? 0 then raise ValueError
  else
    in_world (modify (fun w => set_pool (submitted w) [] w)) ;;
    try_finally body (shutdown ports_data net host).

(** The dict comprehension that submits one task per port. *)
Fixpoint submit_all (ports : list Z) : M frame unit :=
  match ports with
  | [] => ret tt
  | p :: rest => tick ;; submit p ;; submit_all rest
  end.

(** One turn of the [for future in as_completed(...)] loop, for the future
    of port [p]: the loop head waits until a worker has run the task, then
    the body takes what the task returned or raised from the future.  The
    two quotients of the progress report are floats that only the f-string
    formats; either division can raise. *)
Definition handle_future (ports_data : json) (net : network)
    (clock : nat -> Z) (host : string) (start_time total_ports : Z) (p : Z)
  : M frame unit :=
  tick ;;
  done <- in_world (run_task ports_data net host p) ;;
  try_except
    (tick ;;
     result <- eval done ;;
     tick ;;
     modify (fun f =>
       {| results := results f; ports_scanned := ports_scanned f + 1;
          time_calls := time_calls f; sys := sys f; sigint := sigint f |}) ;;
     tick ;;
     n <- gets ports_scanned ;;
     (if n mod 1000 =? 0 then
        now <- time_time clock ;;
        let elapsed := now - start_time in
        eval (truediv n elapsed) ;;
        eval (truediv n total_ports) ;;
        in_world (print (Progress n total_ports))
      else ret tt) ;;
     tick ;;
     match status result with
     | OPEN =>
         modify (fun f =>
           {| results := results f ++ [result];
              ports_scanned := ports_scanned f; time_calls := time_calls f;
              sys := sys f; sigint := sigint f |})
     | CLOSED => ret tt
     end)
    is_Exception
    (fun e => tick ;; in_world (print (ErrorScanning p e))).

Fixpoint handle_futures (ports_data : json) (net : network)
    (clock : nat -> Z) (host : string) (start_time total_ports : Z)
    (order : list Z) : M frame unit :=
  match order with
  | [] => ret tt
  | p :: rest =>
      handle_future ports_data net clock host start_time total_ports p ;;
      handle_futures ports_data net clock host start_time total_ports rest
  end.

(** [scan]. *)
Definition scan (ports_data : json) (net : network) (clock : nat -> Z)
    (sched : list nat) (signals : list nat) (host : string)
    (start_port end_port threads : Z) : M world (list probe_result) :=
  fun w =>
    let total_ports := end_port - start_port + 1 in
    let ports := range start_port (end_port + 1) in
    let '(r, f) :=
      (tick ;;
       start_time <- time_time clock ;;
       try_except_interrupt
         (with_executor ports_data net host threads
            (submit_all ports ;;
             handle_futures ports_data net clock host start_time total_ports
               (as_completed sched ports) ;;
             tick))
         (tick ;; in_world (print ScanInterrupted)) ;;
       tick ;;
       collected <- gets results ;;
       ret (sorted_by_port collected))
        {| results := []; ports_scanned := 0; time_calls := O; sys := w;
           sigint := signals |} in
    (r, sys f).

End PortScanner.

(** ** The command line: [main] *)

Module Cli.

(** The namespace [parse_args] returns. *)
Record args : Type :=
  { host : string;
    ports : string;
    threads : Z;
    output : option string }.

(** [s.split(sep)] for a one-character separator. *)
Fixpoint split (sep : ascii) (s : string) : list string :=
  match s with
  | EmptyString => [EmptyString]
  | String c rest =>
      if Ascii.eqb c sep then EmptyString :: split sep rest
      else match split sep rest with
           | [] => [String c EmptyString]
           | word :: words => String c word :: words
           end
  end.

(** [s.endswith(suffix)]. *)
Definition endswith (s suffix : string) : bool :=
  let n := String.length s in
  let m := String.length suffix in
  (m <=? n)%nat && String.eqb (substring (n - m) m s) suffix.

(** Truth value of [args.output]: [None] and the empty string are false. *)
Definition given (o : option string) : option string :=
  match o with
  | Some (String c rest) => Some (String c rest)
  | _ => None
  end.

Section Main.

(** [int(s)] of the interpreter: [None] when it raises ValueError. *)
Variable int_of_str : string -> option Z.

(** Whether [open(path, 'w')] succeeds. *)
Variable can_write : string -> bool.

(** [start_port, end_port = map(int, args.ports.split('-'))]. *)
Definition parse_ports (s : string) : outcome (Z * Z) :=
  match map int_of_str (split "-" s) with
  | [Some a; Some b] => Ret (a, b)
  | _ => Raise ValueError
  end.

(** [with open(path, 'w') as f: f.write(...)]. *)
Definition write_report (path : string) (r : report) : M world unit :=
  if can_write path then modify (add_file path r) else raise OSError.

Fixpoint print_ports (results : list probe_result) : M world unit :=
  match results with
  | [] => ret tt
  | r :: rest => print (PortLine (port r) (service r)) ;; print_ports rest
  end.

(** The part of [main] after the scan has returned [results]. *)
Definition report_results (a : args) (results : list probe_result)
  : M world unit :=
  match results with
  | [] => print NoOpenPortsFound
  | _ :: _ =>
      match given (output a) with
      | Some path =>
          (if endswith path ".html"
           then write_report path (HtmlReport (host a) results)
           else write_report path (TextReport (host a) results)) ;;
          print (ResultsWritten path)
      | None => ret tt
      end ;;
      print OpenPortsHeader ;;
      print_ports results
  end.

Definition main (ports_file : exn + json) (net : network) (clock : nat -> Z)
    (sched : list nat) (signals : list nat) (a : args) : M world unit :=
  bounds <- eval (parse_ports (ports a)) ;;
  let '(start_port, end_port) := bounds in
  ports_data <- PortScanner.init ports_file ;;
  print (StartingScan (host a)) ;;
  try_except_interrupt
    (results <- PortScanner.scan ports_data net clock sched signals (host a)
                  start_port end_port (threads a) ;;
     report_results a results)
    (print MainInterrupted).

End Main.

(** The text of a console line.  [str] of a label is given for the scalar
    labels; a line whose text holds a float, a timestamp, the message of an
    exception or the repr of a container has no text here. *)
Definition newline : string := String (ascii_of_nat 10) EmptyString.

Definition label_text (v : json) : option string :=
  match v with
  | JStr s => Some s
  | JNum n => Some (str n)
  | JBool true => Some "True"
  | JBool false => Some "False"
  | JNull => Some "None"
  | JArr _ | JObj _ => None
  end.

Definition text (o : message) : option string :=
  match o with
  | LoadedEntries n => Some ("Loaded " ++ str n ++ " port entries")
  | FoundOpenPort p label =>
      option_map (fun s => "Found open port " ++ str p ++ ": " ++ s)
        (label_text label)
  | ScanInterrupted =>
      Some (newline ++ "Scan interrupted by user. Processing results...")
  | NoOpenPortsFound => Some "No open ports found"
  | ResultsWritten path => Some (newline ++ "Results written to " ++ path)
  | OpenPortsHeader => Some (newline ++ "Open ports:")
  | PortLine p label =>
      option_map (fun s => "Port " ++ str p ++ ": " ++ s) (label_text label)
  | MainInterrupted => Some (newline ++ "Scan interrupted by user")
  | CouldNotLoad _ | Progress _ _ | ErrorScanning _ _ | StartingScan _ => None
  end.

End Cli.

(** ** Vocabulary of the properties *)

(** A world in which nothing has happened yet. *)
Definition idle : world :=
  {| stdout := []; open_socks := []; next_sock := O; submitted := [];
     pool := []; files := [] |}.

(** What the probe of port [p] returns or raises: the outcome of
    [check_port], which the lemma [check_port_outcome] shows to be the same
    in every world. *)
Definition probe (ports_data : json) (net : network) (host : string) (p : Z)
  : outcome probe_result :=
  fst (PortScanner.check_port ports_data net host p idle).

(** The world once a worker has run the probe of [p] in [w]. *)
Definition probed (ports_data : json) (net : network) (host : string) (p : Z)
    (w : world) : world :=
  snd (PortScanner.check_port ports_data net host p w).

(** The result the probe of [p] contributes to the report, if any. *)
Definition open_result (ports_data : json) (net : network) (host : string)
    (p : Z) : list probe_result :=
  match probe ports_data net host p with
  | Ret r =>
      match status r with
      | OPEN => [r]
      | CLOSED => []
      end
  | _ => []
  end.

(** The catalog holds no usable label for [key]: no entry, an empty
    sequence, or a record (alone or first of a sequence) without a
    "description". *)
Inductive no_label (ports_data : json) (key : string) : Prop :=
| no_entry :
    contains key ports_data = Ret false -> no_label ports_data key
| empty_sequence (fields : list (string * json)) :
    ports_data = JObj fields ->
    dict_get key fields = Some (JArr []) -> no_label ports_data key
| record_without_description (fields record : list (string * json)) :
    ports_data = JObj fields ->
    dict_get key fields = Some (JObj record) ->
    dict_get "description" record = None -> no_label ports_data key
| first_without_description (fields record : list (string * json))
    (others : list json) :
    ports_data = JObj fields ->
    dict_get key fields = Some (JArr (JObj record :: others)) ->
    dict_get "description" record = None -> no_label ports_data key.

(** A catalog as the lookup table documents it: a dict whose values are
    records or sequences of records. *)
Definition is_record (v : json) : bool :=
  match v with
  | JObj _ => true
  | _ => false
  end.

Definition is_entry (v : json) : bool :=
  match v with
  | JObj _ => true
  | JArr items => forallb is_record items
  | _ => false
  end.

Definition well_formed (ports_data : json) : bool :=
  match ports_data with
  | JObj fields => forallb (fun kv => is_entry (snd kv)) fields
  | _ => false
  end.

(** The connection attempt was made and did not establish: refused or
    timed out (a non-zero errno), or a socket-level error was raised. *)
Definition not_established (a : attempt) : Prop :=
  match a with
  | ConnectReturns code => code <> 0
  | ConnectRaises e => is_socket_error e = true
  | SocketFails => False
  end.

(** The delivery points the loop body passes for the future of [p]: five
    when [future.result()] returns, three when it raises. *)
Definition delivery_points (ports_data : json) (net : network) (host : string)
    (p : Z) : nat :=
  match probe ports_data net host p with
  | Ret _ => 5%nat
  | _ => 3%nat
  end.

(** How many futures of [order], taken from its head, the loop handles to
    the end when it can pass [budget] delivery points before the signal. *)
Fixpoint handled (ports_data : json) (net : network) (host : string)
    (budget : nat) (order : list Z) : nat :=
  match order with
  | [] => O
  | p :: rest =>
      let c := delivery_points ports_data net host p in
      if (c <=? budget)%nat
      then S (handled ports_data net host (budget - c) rest)
      else O
  end.

(** The progress lines among [lines], each as (completed, total). *)
Definition progress_lines (lines : list message) : list (Z * Z) :=
  flat_map (fun m => match m with
                     | Progress scanned total => [(scanned, total)]
                     | _ => []
                     end) lines.

(** An entry [get_service] can read: a record, an empty sequence, or a
    sequence that starts with a record. *)
Definition readable (v : json) : bool :=
  match v with
  | JObj _ => true
  | JArr [] => true
  | JArr (JObj _ :: _) => true
  | _ => false
  end.

(** The line a worker prints for what its probe returned or raised. *)
Definition found_line (p : Z) (o : outcome probe_result) : list message :=
  match o with
  | Ret r =>
      match status r with
      | OPEN => [FoundOpenPort p (service r)]
      | CLOSED => []
      end
  | _ => []
  end.

(** Whether the probe of [p] returns a result (OPEN or CLOSED). *)
Definition returns (ports_data : json) (net : network) (host : string)
    (p : Z) : bool :=
  match probe ports_data net host p with
  | Ret _ => true
  | _ => false
  end.

(** The loop between two signals, turn by turn.  A turn starts with [n]
    probes counted and [k] readings of the clock made.  It makes a progress
    report when its probe returned and is the next thousandth to be
    counted; the report fails, with ZeroDivisionError, when the clock
    reads what it read at the start or when the total is zero. *)
Definition reports (n : Z) : bool := (n + 1) mod 1000 =? 0.

Definition report_fails (clock : nat -> Z) (start_time total : Z) (k : nat)
  : bool :=
  (clock k - start_time =? 0) || (total =? 0).

Definition counted (ports_data : json) (net : network) (host : string)
    (n p : Z) : Z :=
  if returns ports_data net host p then n + 1 else n.

Definition reads_after (ports_data : json) (net : network) (host : string)
    (n : Z) (k : nat) (p : Z) : nat :=
  if returns ports_data net host p && reports n then S k else k.

(** What a turn appends to [results]: the OPEN result of its probe,
    unless its progress report fails. *)
Definition turn_results (ports_data : json) (net : network) (clock : nat -> Z)
    (host : string) (start_time total n : Z) (k : nat) (p : Z)
  : list probe_result :=
  if returns ports_data net host p && reports n
     && report_fails clock start_time total k
  then []
  else open_result ports_data net host p.

(** The lines of a turn: the worker's line, then the progress line or
    the error line of a failed report; or the error line of a probe that
    raised. *)
Definition turn_lines (ports_data : json) (net : network) (clock : nat -> Z)
    (host : string) (start_time total n : Z) (k : nat) (p : Z)
  : list message :=
  match probe ports_data net host p with
  | Ret r =>
      (found_line p (Ret r)
       ++ (if reports n
           then if report_fails clock start_time total k
                then [ErrorScanning p ZeroDivisionError]
                else [Progress (n + 1) total]
           else []))%list
  | Raise e => [ErrorScanning p e]
  | Interrupt => []
  end.

Fixpoint loop_results (ports_data : json) (net : network) (clock : nat -> Z)
    (host : string) (start_time total n : Z) (k : nat) (order : list Z)
  : list probe_result :=
  match order with
  | [] => []
  | p :: rest =>
      (turn_results ports_data net clock host start_time total n k p
       ++ loop_results ports_data net clock host start_time total
            (counted ports_data net host n p)
            (reads_after ports_data net host n k p) rest)%list
  end.

Fixpoint loop_lines (ports_data : json) (net : network) (clock : nat -> Z)
    (host : string) (start_time total n : Z) (k : nat) (order : list Z)
  : list message :=
  match order with
  | [] => []
  | p :: rest =>
      (turn_lines ports_data net clock host start_time total n k p
       ++ loop_lines ports_data net clock host start_time total
            (counted ports_data net host n p)
            (reads_after ports_data net host n k p) rest)%list
  end.

(** The delivery points of the loop over [order], and those of the whole
    [try] block when no signal cuts it short: the pool, one per submit,
    the loop, the end of the [with] body. *)
Definition loop_points (ports_data : json) (net : network) (host : string)
    (order : list Z) : nat :=
  fold_right (fun p points => (delivery_points ports_data net host p + points)%nat)
    O order.

Definition try_points (ports_data : json) (net : network) (host : string)
    (order : list Z) : nat :=
  S (List.length order + loop_points ports_data net host order + 1).

(** The clock never again reads what it read when the scan started. *)
Definition clock_moves (clock : nat -> Z) : Prop :=
  forall k, (0 < k)%nat -> clock k <> clock O.

(** The results [extra] come from probes of distinct ports of [order],
    each the OPEN result of the probe of its port. *)
Definition picked (ports_data : json) (net : network) (host : string)
    (order : list Z) (extra : list probe_result) : Prop :=
  NoDup (map port extra)
  /\ Forall (fun r => In (port r) order
                      /\ probe ports_data net host (port r) = Ret r
                      /\ status r = OPEN) extra.

(** A relation between the world before and after is kept by a
    computation of the main thread, or of a worker. *)
Definition keeps (R : world -> world -> Prop) {A : Type}
    (c : M PortScanner.frame A) : Prop :=
  forall f, R (PortScanner.sys f) (PortScanner.sys (snd (c f))).

Definition keeps_world (R : world -> world -> Prop) {A : Type}
    (c : M world A) : Prop :=
  forall w, R w (snd (c w)).

(** No socket is open that was not open before, and the files are the
    same. *)
Definition settled (w w' : world) : Prop :=
  incl (open_socks w') (open_socks w) /\ files w' = files w.

(** [sep.join(pieces)] for a one-character separator, and whether a
    string holds a character. *)
Fixpoint join (sep : ascii) (pieces : list string) : string :=
  match pieces with
  | [] => EmptyString
  | [piece] => piece
  | piece :: rest => (piece ++ String sep (join sep rest))%string
  end.

Fixpoint has_char (c : ascii) (s : string) : bool :=
  match s with
  | EmptyString => false
  | String x rest => Ascii.eqb x c || has_char c rest
  end.

(** The pieces of a text put one after the other. *)
Fixpoint glue (pieces : list string) : string :=
  match pieces with
  | [] => EmptyString
  | piece :: rest => (piece ++ glue rest)%string
  end.

(** ** Rendering the reports

    [generate_html_report] and the text that [main] writes to a ".txt"
    target.  The two timestamps and the duration are taken as the texts
    Python formats them to, and [str_of] is [str] on a label. *)

Definition dquote : string := String (ascii_of_nat 34) EmptyString.

Definition status_text (s : status_t) : string :=
  match s with
  | OPEN => "OPEN"
  | CLOSED => "CLOSED"
  end.

(** The lines of a triple-quoted string, joined by newlines. *)
Definition lines_text (ls : list string) : string := join (ascii_of_nat 10) ls.

Section Rendering.

Variable str_of : json -> string.

Definition html_head (host start_time end_time duration : string) : string :=
  lines_text
    ["";
     "    <!DOCTYPE html>";
     "    <html>";
     "    <head>";
     ("        <title>Port Scan Report - " ++ host ++ "</title>");
     "        <style>";
     "            body { font-family: Arial, sans-serif; margin: 20px; }";
     "            table { border-collapse: collapse; width: 100%; }";
     "            th, td { border: 1px solid #ddd; padding: 8px; text-align: left; }";
     "            th { background-color: #f2f2f2; }";
     "            tr:nth-child(even) { background-color: #f9f9f9; }";
     "            .header { margin-bottom: 20px; }";
     "        </style>";
     "    </head>";
     "    <body>";
     ("        <div class=" ++ dquote ++ "header" ++ dquote ++ ">");
     "            <h1>Port Scan Report</h1>";
     ("            <p>Target Host: " ++ host ++ "</p>");
     ("            <p>Start Time: " ++ start_time ++ "</p>");
     ("            <p>End Time: " ++ end_time ++ "</p>");
     ("            <p>Duration: " ++ duration ++ " seconds</p>");
     "        </div>";
     "        <table>";
     "            <tr>";
     "                <th>Port</th>";
     "                <th>Status</th>";
     "                <th>Service</th>";
     "            </tr>";
     "    "]%string.

Definition html_row (r : probe_result) : string :=
  lines_text
    ["";
     "            <tr>";
     ("                <td>" ++ str (port r) ++ "</td>");
     ("                <td>" ++ status_text (status r) ++ "</td>");
     ("                <td>" ++ str_of (service r) ++ "</td>");
     "            </tr>";
     "        "]%string.

Definition html_foot : string :=
  lines_text
    ["";
     "        </table>";
     "    </body>";
     "    </html>";
     "    "]%string.

(** [generate_html_report]: the loop appends one row per result. *)
Definition generate_html_report (results : list probe_result)
    (host start_time end_time duration : string) : string :=
  let html := html_head host start_time end_time duration in
  let html := fold_left (fun html r => (html ++ html_row r)%string) results html in
  (html ++ html_foot)%string.

(** The text [main] writes to a target that does not end in ".html". *)
Definition text_line (r : probe_result) : string :=
  ("Port " ++ str (port r) ++ ": " ++ status_text (status r) ++ " - "
   ++ str_of (service r) ++ Cli.newline)%string.

Definition text_report (results : list probe_result)
    (host start_time end_time : string) : string :=
  let written :=
    ("Port Scan Report for " ++ host ++ Cli.newline)%string in
  let written :=
    (written ++ "Scan Time: " ++ start_time ++ " to " ++ end_time
     ++ Cli.newline ++ Cli.newline)%string in
  fold_left (fun written r => (written ++ text_line r)%string) results written.

End Rendering.

(** Sample inputs. *)
Module Samples.

(** [str] on a scalar label. *)
Definition label_str (v : json) : string :=
  match Cli.label_text v with
  | Some text => text
  | None => EmptyString
  end.

Definition catalog : json :=
  JObj [("22", JArr []);
        ("23", JObj [("name", JStr "telnet")]);
        ("25", JArr [JObj [("name", JStr "smtp")]]);
        ("80", JObj [("description", JStr "HTTP")]);
        ("443", JArr [JObj [("description", JStr "HTTPS")]])].

(** Ports 80 and 443 accept, port 81 times out with an exception, port 82
    cannot even get a socket, port 70000 is out of range for
    [connect_ex], every other port refuses (ECONNREFUSED). *)
Definition lan : network :=
  fun _ p =>
    if (p =? 80) || (p =? 443) then ConnectReturns 0
    else if p =? 81 then ConnectRaises SocketTimeout
    else if p =? 82 then SocketFails
    else if p =? 70000 then ConnectRaises OverflowError
    else ConnectReturns 111.

(** Decimal digits only: enough of [int] for the sample command lines. *)
Definition int_of_decimal (s : string) : option Z :=
  option_map Z.of_int (NilZero.int_of_string s).

Definition http : probe_result :=
  {| port := 80; status := OPEN; service := JStr "HTTP" |}.

(** A network on which no socket can be had for port 1 and every other
    port accepts. *)
Definition harbour : network :=
  fun _ p => if p =? 1 then SocketFails else ConnectReturns 0.

(** A clock that advances by one unit from reading to reading, one that
    stands still, and one whose third reading falls back to the first. *)
Definition steady : nat -> Z := Z.of_nat.

Definition frozen : nat -> Z := fun _ => 0.

Definition stepped_back : nat -> Z :=
  fun k => if Nat.eqb k 2 then 0 else Z.of_nat k.

End Samples.

(** * Properties *)

(** ** The catalog lookup *)

Lemma get_service_not_interrupted (ports_data : json) (p : Z) :
  PortScanner.get_service ports_data p <> Interrupt.
Proof.
  unfold PortScanner.get_service.
  destruct ports_data; cbn; try discriminate.
  - destruct (str_contains _ _); cbn; discriminate.
  - destruct (existsb _ _); cbn; discriminate.
  - destruct (dict_get (str p) fields) as [v|]; cbn; [|discriminate].
    destruct v; cbn; try discriminate.
    + destruct items as [|x rest]; cbn; [discriminate|].
      destruct x; cbn; try discriminate.
      destruct (dict_get _ _); discriminate.
    + destruct (dict_get _ _); discriminate.
Qed.

Lemma dict_get_In (key : string) (fields : list (string * json)) (v : json) :
  dict_get key fields = Some v -> exists k, In (k, v) fields.
Proof.
  induction fields as [|[k x] rest IH]; cbn; [discriminate|].
  destruct (String.eqb key k).
  - intros [= ->]. exists k. now left.
  - intros Hget. destruct (IH Hget) as [k' Hin]. exists k'. now right.
Qed.

(** On a well-formed catalog the lookup gives a label for every port. *)
Lemma get_service_returns (ports_data : json) (p : Z) :
  well_formed ports_data = true ->
  exists label, PortScanner.get_service ports_data p = Ret label.
Proof.
  destruct ports_data as [| | | | |fields]; try discriminate.
  cbn [well_formed]. intros Hwf. unfold PortScanner.get_service. cbn.
  destruct (dict_get (str p) fields) as [v|] eqn:Hget; cbn; [|eauto].
  destruct (dict_get_In _ _ _ Hget) as [k Hin].
  rewrite forallb_forall in Hwf. specialize (Hwf _ Hin). cbn in Hwf.
  destruct v as [| | | |items|record]; try discriminate; cbn.
  - destruct items as [|x rest]; cbn; [eauto|].
    cbn in Hwf. apply andb_prop in Hwf as [Hx _].
    destruct x as [| | | | |first]; try discriminate. cbn.
    destruct (dict_get "description" first); eauto.
  - destruct (dict_get "description" record); eauto.
Qed.

(** C4.  When the catalog has no entry for the port, or the entry is an
    empty sequence or a record without a description, [get_service]
    returns the string "Unknown" and does not raise. *)
Theorem get_service_unknown (ports_data : json) (p : Z) :
  no_label ports_data (str p) ->
  PortScanner.get_service ports_data p = Ret (JStr "Unknown").
Proof.
  intros [H | fields -> H | fields record -> H D | fields record others -> H D];
    unfold PortScanner.get_service; cbn.
  - destruct ports_data; cbn in *; try discriminate.
    + injection H as ->. reflexivity.
    + injection H as ->. reflexivity.
    + destruct (dict_get (str p) fields); [discriminate | reflexivity].
  - rewrite H. reflexivity.
  - rewrite H. cbn. rewrite D. reflexivity.
  - rewrite H. cbn. rewrite D. reflexivity.
Qed.

Lemma get_service_unknown_witness :
  PortScanner.get_service Samples.catalog 9999 = Ret (JStr "Unknown")
  /\ PortScanner.get_service Samples.catalog 22 = Ret (JStr "Unknown")
  /\ PortScanner.get_service Samples.catalog 23 = Ret (JStr "Unknown")
  /\ PortScanner.get_service Samples.catalog 25 = Ret (JStr "Unknown").
Proof.
  split; [|split; [|split]].
  - apply get_service_unknown. apply no_entry. reflexivity.
  - apply get_service_unknown.
    eapply empty_sequence; reflexivity.
  - apply get_service_unknown.
    eapply record_without_description; reflexivity.
  - apply get_service_unknown.
    eapply first_without_description; reflexivity.
Defined.

(** Whatever the catalog file holds, [__init__] leaves a container in
    [self.ports_data], so that the membership test of [get_service]
    answers and does not raise. *)
Lemma init_leaves_container (ports_file : exn + json) (w : world) :
  exists ports_data,
    fst (PortScanner.init ports_file w) = Ret ports_data
    /\ forall key, exists present, contains key ports_data = Ret present.
Proof.
  unfold PortScanner.init, try_except, eval. cbn.
  destruct ports_file as [e|data]; cbn.
  - exists (JObj []). split; [reflexivity|]. intros key. now exists false.
  - destruct (getitem data "ports") as [ports_data|e|] eqn:Hports; cbn.
    + destruct ports_data as [| | |s|items|fields]; cbn;
        try (exists (JObj []); split; [reflexivity|];
             intros key; now exists false).
      * eexists. split; [reflexivity|]. intros key. cbn. eauto.
      * eexists. split; [reflexivity|]. intros key. cbn. eauto.
      * eexists. split; [reflexivity|]. intros key. cbn.
        destruct (dict_get key fields); eauto.
    + exists (JObj []). split; [reflexivity|]. intros key. now exists false.
    + destruct data as [| | | | |fields]; cbn in Hports; try discriminate.
      destruct (dict_get "ports" fields); discriminate.
Qed.

(** ** A single probe *)

(** Unfolds the control operators and the primitive effects. *)
Ltac run :=
  cbn;
  repeat (progress
            (unfold try_finally, try_except, try_except_interrupt, eval, raise,
               modify, gets, print, sock_close, connect_ex, socket_socket,
               settimeout; cbn)).

Section Probe.

Variable ports_data : json.
Variable net : network.
Variable host : string.

(** Case analysis on everything [check_port] for port [p] depends on. *)
Ltac probe_cases p :=
  unfold probe, PortScanner.check_port; run;
  destruct (net host p) as [|code|e]; run;
  [ | destruct (code =? 0) eqn:Hcode; run
    | destruct (is_socket_error e) eqn:Hsock; run ];
  try (pose proof (get_service_not_interrupted ports_data p);
       destruct (PortScanner.get_service ports_data p) as [label|e'|];
       run; [ | try (destruct (is_socket_error e'); run) | congruence ]).

Lemma check_port_outcome (p : Z) (w : world) :
  fst (PortScanner.check_port ports_data net host p w)
  = probe ports_data net host p.
Proof. probe_cases p; reflexivity. Qed.

Lemma probe_not_interrupted (p : Z) :
  probe ports_data net host p <> Interrupt.
Proof. probe_cases p; discriminate. Qed.

Lemma probe_port (p : Z) (r : probe_result) :
  probe ports_data net host p = Ret r -> port r = p.
Proof. probe_cases p; intros [= <-]; reflexivity. Qed.

(** A worker leaves the pool and the files alone, and prints at most
    the "Found open port" line. *)
Lemma check_port_world (p : Z) (w : world) :
  let w' := snd (PortScanner.check_port ports_data net host p w) in
  submitted w' = submitted w /\ pool w' = pool w /\ files w' = files w
  /\ (stdout w' = stdout w
      \/ exists label, stdout w' = (stdout w ++ [FoundOpenPort p label])%list).
Proof.
  probe_cases p; repeat split; auto; right; eexists; reflexivity.
Qed.

(** C2, amended.  With [label] the label the catalog lookup gives for
    the port, when it gives one:
    a connection attempt that establishes is classified OPEN, one that is
    refused, times out or fails at the socket level is classified CLOSED,
    the returned result carries the port, that status and the label, and
    no result is OPEN unless the connection was established. *)
Theorem check_port_classifies (p : Z) (w : world) (label : json) :
  PortScanner.get_service ports_data p = Ret label ->
  (net host p = ConnectReturns 0 ->
     fst (PortScanner.check_port ports_data net host p w)
     = Ret {| port := p; status := OPEN; service := label |})
  /\ (not_established (net host p) ->
     fst (PortScanner.check_port ports_data net host p w)
     = Ret {| port := p; status := CLOSED; service := label |})
  /\ (forall r,
     fst (PortScanner.check_port ports_data net host p w) = Ret r ->
     port r = p /\ service r = label
     /\ (status r = OPEN <-> net host p = ConnectReturns 0)).
Proof.
  intros Hlabel. unfold PortScanner.check_port; run. rewrite Hlabel.
  destruct (net host p) as [|code|e]; run.
  - split; [discriminate|]. split; [contradiction|]. discriminate.
  - destruct (Z.eqb_spec code 0) as [->|Hcode]; run.
    + split; [reflexivity|]. split; [intros H; now elim H|].
      intros r [= <-]. cbn. repeat split; auto.
    + split; [intros [= ->]; now elim Hcode|]. split; [reflexivity|].
      intros r [= <-]. cbn. repeat split; auto; try discriminate.
      intros [= ->]. now elim Hcode.
  - destruct (is_socket_error e) eqn:Hsock; run.
    + split; [discriminate|]. split; [reflexivity|].
      intros r [= <-]. cbn. repeat split; auto; discriminate.
    + split; [discriminate|]. split; [intros H; congruence|]. discriminate.
Qed.

(** C7.  Whatever way [check_port] is left (a result for an established
    or a failed connection, or an exception), the socket it acquired is
    closed by then, and no socket is open that was not open before the
    call. *)
Theorem check_port_releases_socket (p : Z) (w : world) :
  let w' := snd (PortScanner.check_port ports_data net host p w) in
  (net host p <> SocketFails -> ~ In (next_sock w) (open_socks w'))
  /\ (forall s, In s (open_socks w') -> In s (open_socks w)).
Proof.
  assert (Hgone : forall l, ~ In (next_sock w)
            (filter (fun s => negb (Nat.eqb s (next_sock w))) l)).
  { intros l Hin. apply filter_In in Hin as [_ Hne].
    rewrite Nat.eqb_refl in Hne. discriminate. }
  assert (Hsub : forall s (l : list nat),
            In s (filter (fun s => negb (Nat.eqb s (next_sock w))) l) ->
            In s l).
  { intros s l Hin. now apply filter_In in Hin. }
  probe_cases p; rewrite ?Nat.eqb_refl; cbn;
    (split; [intros Hsock'; try congruence; auto | eauto]).
Qed.

End Probe.

(** The four ways out of [check_port], from a world in which socket 5 of
    someone else is open: a result for an accepted and for a refused
    connection, a caught timeout, an OverflowError that propagates. *)
Example check_port_exits_sample :
  let busy := {| stdout := []; open_socks := [5%nat]; next_sock := 6%nat;
                 submitted := []; pool := []; files := [] |} in
  map (fun p => (fst (PortScanner.check_port Samples.catalog Samples.lan
                        "scanme" p busy),
                 open_socks (snd (PortScanner.check_port Samples.catalog
                                    Samples.lan "scanme" p busy))))
      [80; 22; 81; 70000]
  = [(Ret Samples.http, [5%nat]);
     (Ret {| port := 22; status := CLOSED; service := JStr "Unknown" |},
      [5%nat]);
     (Ret {| port := 81; status := CLOSED; service := JStr "Unknown" |},
      [5%nat]);
     (Raise OverflowError, [5%nat])].
Proof. reflexivity. Qed.

(** A refused connection, a timeout raised as an exception and an accepted
    connection, all three with the catalog's label. *)
Lemma check_port_classifies_witness :
  fst (PortScanner.check_port Samples.catalog Samples.lan "scanme" 80 idle)
  = Ret Samples.http
  /\ fst (PortScanner.check_port Samples.catalog Samples.lan "scanme" 22 idle)
    = Ret {| port := 22; status := CLOSED; service := JStr "Unknown" |}
  /\ fst (PortScanner.check_port Samples.catalog Samples.lan "scanme" 81 idle)
    = Ret {| port := 81; status := CLOSED; service := JStr "Unknown" |}.
Proof.
  split; [|split].
  - apply (check_port_classifies Samples.catalog Samples.lan "scanme" 80 idle
             (JStr "HTTP")); reflexivity.
  - apply (check_port_classifies Samples.catalog Samples.lan "scanme" 22 idle
             (JStr "Unknown")); [reflexivity | cbn; discriminate].
  - apply (check_port_classifies Samples.catalog Samples.lan "scanme" 81 idle
             (JStr "Unknown")); reflexivity.
Defined.

(** C2 as stated fails for a port whose catalog entry the lookup cannot
    read: with the entry "80": "http", a string, [check_port] raises
    AttributeError, whether the connection is established or refused, and
    classifies nothing. *)
Lemma check_port_unreadable_entry_raises :
  let ports_data := JObj [("80", JStr "http")] in
  fst (PortScanner.check_port ports_data (fun _ _ => ConnectReturns 0)
         "scanme" 80 idle) = Raise AttributeError
  /\ fst (PortScanner.check_port ports_data (fun _ _ => ConnectReturns 111)
            "scanme" 80 idle) = Raise AttributeError.
Proof. split; reflexivity. Qed.

(** ** Ranges, completion orders and sorting *)

Section Lists.

Lemma range_length (a b : Z) : List.length (range a b) = Z.to_nat (b - a).
Proof. unfold range. now rewrite length_map, length_seq. Qed.

Lemma range_In (a b x : Z) : In x (range a b) <-> a <= x < b.
Proof.
  unfold range. rewrite in_map_iff. split.
  - intros (i & <- & Hi). apply in_seq in Hi. lia.
  - intros Hx. exists (Z.to_nat (x - a)). split; [lia|].
    apply in_seq. lia.
Qed.

Lemma range_NoDup (a b : Z) : NoDup (range a b).
Proof.
  unfold range. apply Finite.Injective_map_NoDup; [|apply seq_NoDup].
  intros i j. lia.
Qed.

Lemma range_empty (a b : Z) : b <= a -> range a b = [].
Proof.
  intros Hle. unfold range. now replace (Z.to_nat (b - a)) with O by lia.
Qed.

Lemma drop_nth_Permutation (A : Type) (d : A) (l : list A) :
  forall i, (i < List.length l)%nat ->
  Permutation (nth i l d :: drop_nth i l) l.
Proof.
  induction l as [|x rest IH]; intros i Hi; [cbn in Hi; lia|].
  destruct i as [|i]; cbn; [reflexivity|].
  cbn in Hi. rewrite perm_swap. constructor. apply IH. lia.
Qed.

Lemma completion_Permutation (n : nat) :
  forall sched (pending : list Z),
  List.length pending = n -> Permutation (completion n sched pending) pending.
Proof.
  induction n as [|n IH]; intros sched pending Hlen.
  - destruct pending; [constructor | discriminate].
  - destruct pending as [|first rest]; [discriminate|].
    cbn [completion].
    set (i := Nat.modulo (hd O sched) (List.length (first :: rest))).
    assert (Hi : (i < List.length (first :: rest))%nat)
      by (apply Nat.mod_upper_bound; discriminate).
    pose proof (drop_nth_Permutation Z first (first :: rest) i Hi) as Hperm.
    eapply Permutation_trans; [|exact Hperm].
    constructor. apply IH.
    apply Permutation_length in Hperm. cbn [List.length] in Hperm, Hlen.
    lia.
Qed.

(** [as_completed] yields every future once. *)
Lemma as_completed_Permutation (sched : list nat) (futures : list Z) :
  Permutation (as_completed sched futures) futures.
Proof. now apply completion_Permutation. Qed.

(** Every order of completion is the choice of some scheduler. *)
Lemma as_completed_any_order (futures order : list Z) :
  Permutation order futures ->
  exists sched, as_completed sched futures = order.
Proof.
  unfold as_completed. revert futures.
  induction order as [|x rest IH]; intros futures Hperm.
  - apply Permutation_nil in Hperm as ->. now exists [].
  - assert (Hx : In x futures)
      by (eapply Permutation_in; [exact Hperm | now left]).
    destruct futures as [|first others]; [contradiction|].
    destruct (In_nth _ _ first Hx) as (i & Hi & Hnth).
    pose proof (drop_nth_Permutation Z first (first :: others) i Hi) as Hdrop.
    rewrite Hnth in Hdrop.
    assert (Hrest : Permutation rest (drop_nth i (first :: others))).
    { eapply Permutation_cons_inv with (a := x).
      eapply Permutation_trans; [exact Hperm | now symmetry]. }
    destruct (IH _ Hrest) as [sched Hsched].
    exists (i :: sched).
    assert (Hlen : List.length (drop_nth i (first :: others))
                   = List.length others).
    { apply Permutation_length in Hdrop. cbn [List.length] in Hdrop. lia. }
    cbn [List.length completion hd tl].
    rewrite (Nat.mod_small i) by exact Hi.
    rewrite Hnth, <- Hlen, Hsched. reflexivity.
Qed.

Lemma insert_by_port_Permutation (r : probe_result) (l : list probe_result) :
  Permutation (PortScanner.insert_by_port r l) (r :: l).
Proof.
  induction l as [|x rest IH]; cbn; [reflexivity|].
  destruct (port r <=? port x); [reflexivity|].
  rewrite IH. apply perm_swap.
Qed.

Lemma sorted_by_port_Permutation (l : list probe_result) :
  Permutation (PortScanner.sorted_by_port l) l.
Proof.
  induction l as [|r rest IH]; cbn; [constructor|].
  rewrite insert_by_port_Permutation. now constructor.
Qed.

Lemma insert_by_port_sorted (r : probe_result) (l : list probe_result) :
  StronglySorted (fun a b => port a <= port b) l ->
  StronglySorted (fun a b => port a <= port b) (PortScanner.insert_by_port r l).
Proof.
  induction 1 as [|x rest Hrest IH Hx]; cbn; [repeat constructor|].
  destruct (Z.leb_spec (port r) (port x)) as [Hle|Hlt].
  - constructor; [now constructor|]. constructor; [assumption|].
    eapply Forall_impl; [|exact Hx]. cbn. intros b. lia.
  - constructor; [assumption|].
    rewrite (insert_by_port_Permutation r rest).
    constructor; [lia | assumption].
Qed.

Lemma sorted_by_port_sorted (l : list probe_result) :
  StronglySorted (fun a b => port a <= port b) (PortScanner.sorted_by_port l).
Proof.
  induction l as [|r rest IH]; cbn; [constructor|].
  now apply insert_by_port_sorted.
Qed.

(** Sorted by a key that no two elements share: strictly ascending. *)
Lemma sorted_distinct_strict (l : list probe_result) :
  StronglySorted (fun a b => port a <= port b) l ->
  NoDup (map port l) ->
  StronglySorted Z.lt (map port l).
Proof.
  induction 1 as [|x rest Hrest IH Hx]; cbn; intros Hnodup; [constructor|].
  inversion Hnodup as [|? ? Hnotin Hnodup']; subst.
  constructor; [now apply IH|].
  apply Forall_map. rewrite Forall_forall in Hx |- *.
  intros y Hy. specialize (Hx y Hy).
  assert (port x <> port y) by (intros Heq; apply Hnotin; rewrite Heq;
                                now apply in_map).
  lia.
Qed.

End Lists.

(** ** The scan loop *)

Ltac run_frame :=
  cbn;
  repeat (progress
            (unfold try_finally, try_except, try_except_interrupt, eval, raise,
               modify, gets, print, truediv, PortScanner.in_world,
               PortScanner.tick, PortScanner.time_time, PortScanner.set_sigint,
               PortScanner.run_task, PortScanner.submit; cbn)).

Section Scan.

Variable ports_data : json.
Variable net : network.
Variable clock : nat -> Z.
Variable host : string.

Lemma check_port_pair (p : Z) (w : world) :
  PortScanner.check_port ports_data net host p w
  = (probe ports_data net host p, probed ports_data net host p w).
Proof.
  rewrite <- (check_port_outcome ports_data net host p w).
  apply surjective_pairing.
Qed.

(** What a worker changes: it prints its line, and leaves the queue and
    the list of submitted tasks alone. *)
Lemma probed_exactly (p : Z) (w : world) :
  stdout (probed ports_data net host p w)
  = (stdout w ++ found_line p (probe ports_data net host p))%list
  /\ pool (probed ports_data net host p w) = pool w
  /\ submitted (probed ports_data net host p w) = submitted w.
Proof.
  unfold probed, probe, PortScanner.check_port; run.
  destruct (net host p) as [|code|e]; run;
    [ | destruct (code =? 0); run | destruct (is_socket_error e); run ];
    try (destruct (PortScanner.get_service ports_data p) as [label|e'|];
         run; try (destruct (is_socket_error e'); run));
    rewrite ?app_nil_r; auto.
Qed.

Lemma found_line_no_progress (p : Z) (o : outcome probe_result) :
  progress_lines (found_line p o) = [].
Proof.
  destruct o as [r|e|]; cbn; [now destruct (status r) | | ]; reflexivity.
Qed.

Lemma probed_world (p : Z) (w : world) :
  submitted (probed ports_data net host p w) = submitted w
  /\ exists lines,
       stdout (probed ports_data net host p w) = (stdout w ++ lines)%list
       /\ progress_lines lines = [].
Proof.
  destruct (probed_exactly p w) as (Hout & _ & Hsub).
  split; [assumption|]. eexists. split; [exact Hout|].
  apply found_line_no_progress.
Qed.

#[local] Opaque PortScanner.check_port probed.

(** One turn of the loop.  When no signal is delivered within it, the
    future of [p] is handled to the end: its OPEN result is appended unless
    the progress report fails, the probe is counted if it returned, and the
    clock is read if a report is made.  Otherwise the loop is left with
    [results] as it was. *)
Lemma handle_future_results (start total : Z) (p : Z) (f : PortScanner.frame) :
  let c := delivery_points ports_data net host p in
  let n := PortScanner.ports_scanned f in
  let k := PortScanner.time_calls f in
  let run := PortScanner.handle_future ports_data net clock host start total p f in
  let finished :=
    PortScanner.results (snd run)
    = (PortScanner.results f
       ++ turn_results ports_data net clock host start total n k p)%list
    /\ PortScanner.ports_scanned (snd run) = counted ports_data net host n p
    /\ PortScanner.time_calls (snd run) = reads_after ports_data net host n k p
    /\ pool (PortScanner.sys (snd run))
       = remove_task p (pool (PortScanner.sys f)) in
  match PortScanner.sigint f with
  | [] => fst run = Ret tt /\ PortScanner.sigint (snd run) = [] /\ finished
  | m :: later =>
      if (c <=? m)%nat
      then fst run = Ret tt
           /\ PortScanner.sigint (snd run) = ((m - c)%nat :: later)
           /\ finished
      else fst run = Interrupt /\ PortScanner.sigint (snd run) = later
           /\ PortScanner.results (snd run) = PortScanner.results f
  end.
Proof.
  unfold delivery_points, turn_results, counted, reads_after, returns, reports,
    report_fails, open_result, PortScanner.handle_future.
  pose proof (probe_not_interrupted ports_data net host p) as Hni.
  destruct f as [res n k w sg].
  destruct (probed_exactly p (set_pool (submitted w) (remove_task p (pool w)) w))
    as (_ & Hpool & _).
  cbn in Hpool.
  destruct sg as [|[|[|[|[|[|m]]]]] later]; run_frame;
    try rewrite check_port_pair; run_frame;
    destruct (probe ports_data net host p) as [r|e|]; run_frame;
    try congruence;
    try (destruct ((n + 1) mod 1000 =? 0); run_frame;
         try (destruct (clock k - start =? 0); run_frame;
              try (destruct (total =? 0); run_frame)));
    try (destruct (status r); run_frame);
    rewrite ?app_nil_r, ?Nat.sub_0_r; repeat split; auto.
Qed.

(** One turn of the loop, seen from outside: it submits nothing, counts
    at most one more completed probe, and prints at most one progress
    line, which then shows the new count. *)
Lemma handle_future_footprint (start total : Z) (p : Z) (f : PortScanner.frame) :
  let f' := snd (PortScanner.handle_future ports_data net clock host start
                   total p f) in
  submitted (PortScanner.sys f') = submitted (PortScanner.sys f)
  /\ exists lines,
       stdout (PortScanner.sys f')
       = (stdout (PortScanner.sys f) ++ lines)%list
       /\ ((progress_lines lines = []
            /\ PortScanner.ports_scanned f <= PortScanner.ports_scanned f'
               <= PortScanner.ports_scanned f + 1)
           \/ (progress_lines lines
               = [(PortScanner.ports_scanned f + 1, total)]
               /\ (PortScanner.ports_scanned f + 1) mod 1000 = 0
               /\ PortScanner.ports_scanned f'
                  = PortScanner.ports_scanned f + 1)).
Proof.
  unfold PortScanner.handle_future.
  pose proof (probe_not_interrupted ports_data net host p) as Hni.
  destruct f as [res n k w sg].
  destruct (probed_world p (set_pool (submitted w) (remove_task p (pool w)) w))
    as (Hsub & l0 & Hout & Hl0).
  cbn in Hsub, Hout.
  destruct sg as [|[|[|[|[|[|m]]]]] later]; run_frame;
    try rewrite check_port_pair; run_frame;
    destruct (probe ports_data net host p) as [r|e|]; run_frame;
    try congruence;
    try (destruct (Z.eqb_spec ((n + 1) mod 1000) 0); run_frame;
         try (destruct (clock k - start =? 0); run_frame;
              try (destruct (total =? 0); run_frame)));
    try (destruct (status r); run_frame);
    rewrite ?Hsub, ?Hout, <- ?app_assoc;
    (split; [reflexivity|]);
    first [ exists []; rewrite app_nil_r; split; [reflexivity|]; left;
            split; [reflexivity | lia]
          | eexists; split; [reflexivity|];
            unfold progress_lines in *; rewrite ?flat_map_app, ?Hl0; cbn;
            first [ left; split; [reflexivity | lia]
                  | right; split; [reflexivity | split; [assumption | lia]] ] ].
Qed.

(** An uninterrupted turn of the loop, line by line. *)
Lemma handle_future_console (start total p : Z) (f : PortScanner.frame) :
  PortScanner.sigint f = [] ->
  stdout (PortScanner.sys
            (snd (PortScanner.handle_future ports_data net clock host start
                    total p f)))
  = (stdout (PortScanner.sys f)
     ++ turn_lines ports_data net clock host start total
          (PortScanner.ports_scanned f) (PortScanner.time_calls f) p)%list.
Proof.
  destruct f as [res n k w sg]. cbn [PortScanner.sigint]. intros ->.
  unfold PortScanner.handle_future, turn_lines, reports, report_fails.
  pose proof (probe_not_interrupted ports_data net host p) as Hni.
  destruct (probed_exactly p (set_pool (submitted w) (remove_task p (pool w)) w))
    as (Hout & _).
  cbn in Hout.
  run_frame; rewrite check_port_pair; run_frame.
  destruct (probe ports_data net host p) as [r|e|]; run_frame;
    try congruence;
    try (destruct ((n + 1) mod 1000 =? 0); run_frame;
         try (destruct (clock k - start =? 0); run_frame;
              try (destruct (total =? 0); run_frame)));
    cbn in Hout; rewrite ?Hout;
    try (destruct (status r); run_frame);
    rewrite ?Hout, ?app_nil_r, <- ?app_assoc; cbn; auto.
Qed.

Lemma handle_futures_step (start total : Z) (p : Z) (rest : list Z)
    (f : PortScanner.frame) :
  PortScanner.handle_futures ports_data net clock host start total (p :: rest) f
  = match PortScanner.handle_future ports_data net clock host start total p f
    with
    | (Ret _, f1) =>
        PortScanner.handle_futures ports_data net clock host start total rest f1
    | (Raise e, f1) => (Raise e, f1)
    | (Interrupt, f1) => (Interrupt, f1)
    end.
Proof. reflexivity. Qed.

Lemma handled_none (order : list Z) : handled ports_data net host 0 order = O.
Proof.
  destruct order as [|p rest]; [reflexivity|]. cbn. unfold delivery_points.
  destruct (probe ports_data net host p); reflexivity.
Qed.

Lemma remove_task_incl (p : Z) (tasks rest : list Z) :
  incl tasks (p :: rest) -> incl (remove_task p tasks) rest.
Proof.
  intros Hincl q Hq. apply filter_In in Hq as [Hq Hne].
  destruct (Hincl q Hq) as [<- | Hin]; [|assumption].
  rewrite Z.eqb_refl in Hne. discriminate.
Qed.

Lemma incl_nil_eq (A : Type) (l : list A) : incl l [] -> l = [].
Proof.
  destruct l as [|x rest]; [reflexivity|]. intros Hincl.
  elim (Hincl x). now left.
Qed.

(** The loop over the completed futures.  It is left at its end when no
    signal is delivered within its delivery points, by the interrupt
    otherwise; either way [results] has grown by what the turns that were
    handled to the end appended, which are those of the first futures in
    the order of completion. *)
Lemma handle_futures_results (start total : Z) (order : list Z) :
  forall f : PortScanner.frame,
  let run := PortScanner.handle_futures ports_data net clock host start total
               order f in
  let k := match PortScanner.sigint f with
           | [] => List.length order
           | m :: _ => handled ports_data net host m order
           end in
  PortScanner.results (snd run)
  = (PortScanner.results f
     ++ loop_results ports_data net clock host start total
          (PortScanner.ports_scanned f) (PortScanner.time_calls f)
          (firstn k order))%list
  /\ match PortScanner.sigint f with
     | [] => fst run = Ret tt /\ PortScanner.sigint (snd run) = []
             /\ (incl (pool (PortScanner.sys f)) order ->
                 pool (PortScanner.sys (snd run)) = [])
     | m :: later =>
         if (loop_points ports_data net host order <=? m)%nat
         then fst run = Ret tt
              /\ PortScanner.sigint (snd run)
                 = ((m - loop_points ports_data net host order)%nat :: later)
              /\ (incl (pool (PortScanner.sys f)) order ->
                  pool (PortScanner.sys (snd run)) = [])
         else fst run = Interrupt /\ PortScanner.sigint (snd run) = later
     end.
Proof.
  induction order as [|p rest IH]; intros f.
  - cbn. destruct (PortScanner.sigint f) as [|m later]; cbn;
      rewrite ?app_nil_r, ?Nat.sub_0_r; repeat split; auto using incl_nil_eq.
  - cbn zeta. rewrite handle_futures_step.
    pose proof (handle_future_results start total p f) as Hturn.
    cbn zeta in Hturn.
    destruct (PortScanner.handle_future ports_data net clock host start total
                p f) as [r f1].
    cbn [fst snd] in Hturn.
    specialize (IH f1). cbn zeta in IH.
    destruct (PortScanner.sigint f) as [|m later].
    + destruct Hturn as (-> & Hsig & Hres & Hcount & Hreads & Hpool).
      rewrite Hsig, Hres, Hcount, Hreads in IH.
      destruct IH as (IHres & IHret & IHsig & IHpool).
      cbn [List.length firstn loop_results]. rewrite IHres, <- app_assoc.
      split; [reflexivity|]. split; [assumption|]. split; [assumption|].
      intros Hincl. apply IHpool. rewrite Hpool.
      now apply remove_task_incl.
    + cbn [handled loop_points fold_right].
      fold (loop_points ports_data net host rest).
      destruct (Nat.leb_spec (delivery_points ports_data net host p) m)
        as [Hfit | Hcut].
      * destruct Hturn as (-> & Hsig & Hres & Hcount & Hreads & Hpool).
        rewrite Hsig, Hres, Hcount, Hreads in IH.
        destruct IH as (IHres & IHout).
        cbn [firstn loop_results]. rewrite IHres, <- app_assoc.
        split; [reflexivity|].
        destruct (Nat.leb_spec (loop_points ports_data net host rest)
                    (m - delivery_points ports_data net host p))
          as [Hfit' | Hcut'].
        -- destruct (Nat.leb_spec
                       (delivery_points ports_data net host p
                        + loop_points ports_data net host rest) m); [|lia].
           destruct IHout as (IHret & IHsig & IHpool).
           split; [assumption|].
           split; [rewrite IHsig; f_equal; lia|].
           intros Hincl. apply IHpool. rewrite Hpool.
           now apply remove_task_incl.
        -- destruct (Nat.leb_spec
                       (delivery_points ports_data net host p
                        + loop_points ports_data net host rest) m); [lia|].
           assumption.
      * destruct Hturn as (-> & Hsig & Hres).
        cbn [fst snd firstn loop_results]. rewrite Hres, app_nil_r.
        destruct (Nat.leb_spec
                    (delivery_points ports_data net host p
                     + loop_points ports_data net host rest) m); [lia|].
        auto.
Qed.

Lemma handle_futures_footprint (start total : Z) (order : list Z) :
  forall f : PortScanner.frame,
  let f' := snd (PortScanner.handle_futures ports_data net clock host start
                   total order f) in
  submitted (PortScanner.sys f') = submitted (PortScanner.sys f)
  /\ PortScanner.ports_scanned f <= PortScanner.ports_scanned f'
     <= PortScanner.ports_scanned f + Z.of_nat (List.length order)
  /\ exists lines,
       stdout (PortScanner.sys f')
       = (stdout (PortScanner.sys f) ++ lines)%list
       /\ StronglySorted Z.lt (map fst (progress_lines lines))
       /\ Forall (fun l => PortScanner.ports_scanned f < fst l
                           <= PortScanner.ports_scanned f'
                           /\ fst l mod 1000 = 0 /\ snd l = total)
            (progress_lines lines).
Proof.
  induction order as [|p rest IH]; intros f.
  - cbn. split; [reflexivity|]. split; [lia|].
    exists []. rewrite app_nil_r. repeat constructor.
  - cbn zeta. rewrite handle_futures_step.
    pose proof (handle_future_footprint start total p f) as Hturn.
    cbn zeta in Hturn.
    destruct (PortScanner.handle_future ports_data net clock host start total
                p f) as [r f1].
    cbn [fst snd] in Hturn.
    destruct Hturn as (Hsub & l1 & Hout & Hcount).
    assert (Hstop :
      submitted (PortScanner.sys f1) = submitted (PortScanner.sys f)
      /\ PortScanner.ports_scanned f <= PortScanner.ports_scanned f1
         <= PortScanner.ports_scanned f + Z.of_nat (List.length (p :: rest))
      /\ exists lines,
           stdout (PortScanner.sys f1)
           = (stdout (PortScanner.sys f) ++ lines)%list
           /\ StronglySorted Z.lt (map fst (progress_lines lines))
           /\ Forall (fun l => PortScanner.ports_scanned f < fst l
                               <= PortScanner.ports_scanned f1
                               /\ fst l mod 1000 = 0 /\ snd l = total)
                (progress_lines lines)).
    { split; [assumption|]. cbn [List.length].
      split; [destruct Hcount as [[_ ?]|(_ & _ & ?)]; lia|].
      exists l1. split; [assumption|].
      destruct Hcount as [[-> ?]|(-> & ? & ?)]; cbn;
        repeat constructor; cbn; try lia; auto. }
    destruct r as [[]|e|]; cbn [snd]; try exact Hstop.
    clear Hstop. specialize (IH f1). cbn zeta in IH.
    destruct IH as (IHsub & IHcount & l2 & IHout & IHsorted & IHall).
    split; [congruence|]. cbn [List.length].
    split; [destruct Hcount as [[_ ?]|(_ & _ & ?)]; lia|].
    exists (l1 ++ l2)%list. rewrite IHout, Hout, <- app_assoc.
    split; [reflexivity|].
    unfold progress_lines in *. rewrite flat_map_app.
    destruct Hcount as [[-> Hn]|(-> & Hmod & Hn)]; cbn [app map fst].
    + split; [assumption|].
      eapply Forall_impl; [|exact IHall]. cbn beta. intros l. lia.
    + split.
      * constructor; [assumption|].
        apply Forall_map. eapply Forall_impl; [|exact IHall].
        cbn beta. intros l. lia.
      * constructor; [cbn; repeat split; auto; lia|].
        eapply Forall_impl; [|exact IHall]. cbn beta. intros l. lia.
Qed.

(** The console of an uninterrupted loop. *)
Lemma handle_futures_console (start total : Z) (order : list Z) :
  forall f : PortScanner.frame,
  PortScanner.sigint f = [] ->
  stdout (PortScanner.sys
            (snd (PortScanner.handle_futures ports_data net clock host start
                    total order f)))
  = (stdout (PortScanner.sys f)
     ++ loop_lines ports_data net clock host start total
          (PortScanner.ports_scanned f) (PortScanner.time_calls f) order)%list.
Proof.
  induction order as [|p rest IH]; intros f Hsig.
  - cbn. now rewrite app_nil_r.
  - rewrite handle_futures_step.
    pose proof (handle_future_results start total p f) as Hturn.
    pose proof (handle_future_console start total p f Hsig) as Hout.
    cbn zeta in Hturn. rewrite Hsig in Hturn.
    destruct (PortScanner.handle_future ports_data net clock host start total
                p f) as [r f1].
    cbn [fst snd] in *.
    destruct Hturn as (-> & Hsig1 & _ & Hcount & Hreads & _).
    rewrite (IH f1 Hsig1), Hout, <- app_assoc. cbn [loop_lines].
    now rewrite Hcount, Hreads.
Qed.

(** Submitting the tasks: one statement each, nothing printed. *)
Lemma submit_all_run (ports : list Z) :
  forall f : PortScanner.frame,
  let run := PortScanner.submit_all ports f in
  PortScanner.results (snd run) = PortScanner.results f
  /\ PortScanner.ports_scanned (snd run) = PortScanner.ports_scanned f
  /\ PortScanner.time_calls (snd run) = PortScanner.time_calls f
  /\ stdout (PortScanner.sys (snd run)) = stdout (PortScanner.sys f)
  /\ match PortScanner.sigint f with
     | [] =>
         fst run = Ret tt /\ PortScanner.sigint (snd run) = []
         /\ submitted (PortScanner.sys (snd run))
            = (submitted (PortScanner.sys f) ++ ports)%list
         /\ pool (PortScanner.sys (snd run))
            = (pool (PortScanner.sys f) ++ ports)%list
     | m :: later =>
         submitted (PortScanner.sys (snd run))
         = (submitted (PortScanner.sys f) ++ firstn m ports)%list
         /\ if (List.length ports <=? m)%nat
            then fst run = Ret tt
                 /\ PortScanner.sigint (snd run)
                    = ((m - List.length ports)%nat :: later)
                 /\ pool (PortScanner.sys (snd run))
                    = (pool (PortScanner.sys f) ++ ports)%list
            else fst run = Interrupt /\ PortScanner.sigint (snd run) = later
     end.
Proof.
  induction ports as [|p rest IH]; intros [res n k w sg].
  - destruct sg as [|[|m] later]; cbn; rewrite ?app_nil_r; repeat split; auto.
  - destruct sg as [|[|m] later].
    + specialize (IH {| PortScanner.results := res;
                        PortScanner.ports_scanned := n;
                        PortScanner.time_calls := k;
                        PortScanner.sys :=
                          set_pool (submitted w ++ [p]) (pool w ++ [p]) w;
                        PortScanner.sigint := [] |}).
      cbn in IH |- *. rewrite <- !app_assoc in IH. exact IH.
    + cbn. rewrite app_nil_r. repeat split; auto.
    + specialize (IH {| PortScanner.results := res;
                        PortScanner.ports_scanned := n;
                        PortScanner.time_calls := k;
                        PortScanner.sys :=
                          set_pool (submitted w ++ [p]) (pool w ++ [p]) w;
                        PortScanner.sigint := m :: later |}).
      cbn in IH |- *. rewrite <- !app_assoc in IH. exact IH.
Qed.

Lemma bind_run (S A B : Type) (c : M S A) (k : A -> M S B) (s : S) :
  (x <- c ;; k x) s
  = match c s with
    | (Ret a, s') => k a s'
    | (Raise e, s') => (Raise e, s')
    | (Interrupt, s') => (Interrupt, s')
    end.
Proof. reflexivity. Qed.

Lemma tick_run (f : PortScanner.frame) :
  let run := PortScanner.tick f in
  (fst run = Ret tt \/ fst run = Interrupt)
  /\ (PortScanner.sigint f = [] ->
      fst run = Ret tt /\ PortScanner.sigint (snd run) = [])
  /\ PortScanner.results (snd run) = PortScanner.results f
  /\ PortScanner.ports_scanned (snd run) = PortScanner.ports_scanned f
  /\ PortScanner.sys (snd run) = PortScanner.sys f.
Proof.
  unfold PortScanner.tick, PortScanner.set_sigint.
  destruct (PortScanner.sigint f) as [|[|n] later] eqn:Hsig; cbn;
    intuition (auto; try discriminate).
Qed.

Lemma run_task_run (p : Z) (f : PortScanner.frame) :
  let run := PortScanner.in_world
               (PortScanner.run_task ports_data net host p) f in
  (exists done, fst run = Ret done)
  /\ PortScanner.results (snd run) = PortScanner.results f
  /\ PortScanner.ports_scanned (snd run) = PortScanner.ports_scanned f
  /\ PortScanner.sigint (snd run) = PortScanner.sigint f
  /\ submitted (PortScanner.sys (snd run)) = submitted (PortScanner.sys f)
  /\ pool (PortScanner.sys (snd run)) = remove_task p (pool (PortScanner.sys f))
  /\ exists lines,
       stdout (PortScanner.sys (snd run))
       = (stdout (PortScanner.sys f) ++ lines)%list
       /\ progress_lines lines = [].
Proof.
  destruct f as [res n k w sg].
  unfold PortScanner.in_world, PortScanner.run_task. cbn.
  rewrite check_port_pair. cbn.
  destruct (probed_exactly p (set_pool (submitted w) (remove_task p (pool w)) w))
    as (Hout & Hpool & Hsub).
  cbn in Hout, Hpool, Hsub.
  split; [eauto|]. repeat (split; [auto; fail|]).
  eexists. split; [exact Hout|]. apply found_line_no_progress.
Qed.

(** Waiting for the queued tasks: nothing is raised but the interrupt,
    nothing submitted, no progress line printed; without a signal every
    task runs. *)
Lemma run_all_run (tasks : list Z) :
  forall f : PortScanner.frame,
  let run := PortScanner.run_all ports_data net host tasks f in
  (fst run = Ret tt \/ fst run = Interrupt)
  /\ (PortScanner.sigint f = [] ->
      fst run = Ret tt /\ PortScanner.sigint (snd run) = []
      /\ (incl (pool (PortScanner.sys f)) tasks ->
          pool (PortScanner.sys (snd run)) = []))
  /\ (tasks = [] -> run = (Ret tt, f))
  /\ PortScanner.results (snd run) = PortScanner.results f
  /\ PortScanner.ports_scanned (snd run) = PortScanner.ports_scanned f
  /\ submitted (PortScanner.sys (snd run)) = submitted (PortScanner.sys f)
  /\ exists lines,
       stdout (PortScanner.sys (snd run))
       = (stdout (PortScanner.sys f) ++ lines)%list
       /\ progress_lines lines = [].
Proof.
  induction tasks as [|p rest IH]; intros f.
  - cbn. split; [auto|]. split; [auto using incl_nil_eq|].
    repeat (split; [reflexivity|]). exists []. now rewrite app_nil_r.
  - cbn zeta. cbn [PortScanner.run_all]. rewrite bind_run.
    destruct (tick_run f) as (Tout & Tquiet & Tres & Tcount & Tsys).
    destruct (PortScanner.tick f) as [r0 f0]. cbn [fst snd] in *.
    destruct Tout as [-> | ->].
    2:{ cbn [fst snd]. split; [auto|].
        split; [intros Hq; now apply Tquiet in Hq as [? _]|].
        split; [discriminate|]. rewrite Tsys.
        repeat (split; [assumption || reflexivity|]).
        exists []. now rewrite app_nil_r. }
    rewrite bind_run.
    destruct (run_task_run p f0)
      as ([done Hdone] & Rres & Rcount & Rsig & Rsub & Rpool & l1 & Rout & Hl1).
    destruct (PortScanner.in_world _ f0) as [r1 f1]. cbn [fst snd] in *.
    subst r1.
    destruct (IH f1) as (Iout & Iquiet & _ & Ires & Icount & Isub & l2 & Iout' & Hl2).
    split; [assumption|].
    split.
    { intros Hq. destruct (Tquiet Hq) as [_ Hsig0].
      rewrite <- Rsig in Hsig0. destruct (Iquiet Hsig0) as (? & ? & Hdrain).
      split; [assumption|]. split; [assumption|].
      intros Hincl. apply Hdrain. rewrite Rpool, Tsys.
      now apply remove_task_incl. }
    split; [discriminate|].
    split; [congruence|]. split; [congruence|].
    split; [rewrite Isub, Rsub, Tsys; reflexivity|].
    exists (l1 ++ l2)%list. rewrite Iout', Rout, Tsys, <- app_assoc.
    split; [reflexivity|].
    unfold progress_lines in *. now rewrite flat_map_app, Hl1, Hl2.
Qed.

Lemma shutdown_run (f : PortScanner.frame) :
  let run := PortScanner.shutdown ports_data net host f in
  (fst run = Ret tt \/ fst run = Interrupt)
  /\ (PortScanner.sigint f = [] ->
      fst run = Ret tt /\ PortScanner.sigint (snd run) = []
      /\ pool (PortScanner.sys (snd run)) = [])
  /\ (pool (PortScanner.sys f) = [] -> run = (Ret tt, f))
  /\ PortScanner.results (snd run) = PortScanner.results f
  /\ PortScanner.ports_scanned (snd run) = PortScanner.ports_scanned f
  /\ submitted (PortScanner.sys (snd run)) = submitted (PortScanner.sys f)
  /\ exists lines,
       stdout (PortScanner.sys (snd run))
       = (stdout (PortScanner.sys f) ++ lines)%list
       /\ progress_lines lines = [].
Proof.
  unfold PortScanner.shutdown. cbn zeta. rewrite bind_run. unfold gets.
  destruct (run_all_run (pool (PortScanner.sys f)) f)
    as (Hout & Hquiet & Hidle & Hrest).
  split; [assumption|].
  split; [intros Hq; destruct (Hquiet Hq) as (? & ? & Hdrain);
          auto using incl_refl|].
  split; [|assumption].
  intros Hempty. rewrite Hempty in *. now apply Hidle.
Qed.

(** The loop and the last delivery point of the [with] body. *)
Lemma loop_run (start total : Z) (order : list Z) (f : PortScanner.frame) :
  let run := (PortScanner.handle_futures ports_data net clock host start total
                order ;;
              PortScanner.tick) f in
  let k := match PortScanner.sigint f with
           | [] => List.length order
           | m :: _ => handled ports_data net host m order
           end in
  let points := (loop_points ports_data net host order + 1)%nat in
  (fst run = Ret tt \/ fst run = Interrupt)
  /\ PortScanner.results (snd run)
     = (PortScanner.results f
        ++ loop_results ports_data net clock host start total
             (PortScanner.ports_scanned f) (PortScanner.time_calls f)
             (firstn k order))%list
  /\ submitted (PortScanner.sys (snd run)) = submitted (PortScanner.sys f)
  /\ (exists lines,
        stdout (PortScanner.sys (snd run))
        = (stdout (PortScanner.sys f) ++ lines)%list
        /\ StronglySorted Z.lt (map fst (progress_lines lines))
        /\ Forall (fun l => PortScanner.ports_scanned f < fst l
                            <= PortScanner.ports_scanned f
                               + Z.of_nat (List.length order)
                            /\ fst l mod 1000 = 0 /\ snd l = total)
             (progress_lines lines))
  /\ match PortScanner.sigint f with
     | [] => fst run = Ret tt /\ PortScanner.sigint (snd run) = []
             /\ (incl (pool (PortScanner.sys f)) order ->
                 pool (PortScanner.sys (snd run)) = [])
             /\ stdout (PortScanner.sys (snd run))
                = (stdout (PortScanner.sys f)
                   ++ loop_lines ports_data net clock host start total
                        (PortScanner.ports_scanned f) (PortScanner.time_calls f)
                        order)%list
     | m :: later =>
         if (points <=? m)%nat
         then fst run = Ret tt
              /\ PortScanner.sigint (snd run) = ((m - points)%nat :: later)
              /\ (incl (pool (PortScanner.sys f)) order ->
                  pool (PortScanner.sys (snd run)) = [])
         else fst run = Interrupt /\ PortScanner.sigint (snd run) = later
     end.
Proof.
  cbn zeta. rewrite bind_run.
  assert (Hloop := handle_futures_results start total order f).
  assert (Hfoot := handle_futures_footprint start total order f).
  assert (Hcons := handle_futures_console start total order f).
  cbn zeta in Hloop, Hfoot.
  destruct (PortScanner.handle_futures ports_data net clock host start total
              order f) as [r1 f1].
  cbn [fst snd] in Hloop, Hfoot.
  destruct Hloop as (Lres & Lsig).
  destruct Hfoot as (Lsub & Lcount & lines & Lstd & Lsorted & Lall).
  assert (Hlines :
    exists lines : list message,
      stdout (PortScanner.sys f1) = (stdout (PortScanner.sys f) ++ lines)%list
      /\ StronglySorted Z.lt (map fst (progress_lines lines))
      /\ Forall (fun l => PortScanner.ports_scanned f < fst l
                          <= PortScanner.ports_scanned f
                             + Z.of_nat (List.length order)
                          /\ fst l mod 1000 = 0 /\ snd l = total)
           (progress_lines lines)).
  { exists lines. split; [assumption|]. split; [assumption|].
    eapply Forall_impl; [|exact Lall]. cbn beta. intros l. lia. }
  clear lines Lstd Lsorted Lall.
  pose proof (tick_run f1) as Htick. cbn zeta in Htick.
  destruct (PortScanner.sigint f) as [|m later].
  - destruct Lsig as (-> & Lsig & Lpool).
    destruct Htick as (_ & Tquiet & Tres & _ & Tsys).
    destruct (Tquiet Lsig) as [Tret Tsig].
    destruct (PortScanner.tick f1) as [r2 f2]. cbn [fst snd] in *.
    rewrite Tres, Tsys. subst r2. specialize (Hcons eq_refl). auto 10.
  - destruct (Nat.leb_spec (loop_points ports_data net host order) m)
      as [Hfit | Hcut].
    + destruct Lsig as (-> & Lsig & Lpool).
      unfold PortScanner.tick, PortScanner.set_sigint in *. rewrite Lsig.
      destruct (m - loop_points ports_data net host order)%nat as [|d] eqn:Hd;
        cbn [fst snd PortScanner.results PortScanner.sys PortScanner.sigint].
      * destruct (Nat.leb_spec
                    (loop_points ports_data net host order + 1) m); [lia|].
        auto 10.
      * destruct (Nat.leb_spec
                    (loop_points ports_data net host order + 1) m); [|lia].
        split; [auto|]. split; [assumption|]. split; [assumption|].
        split; [assumption|]. split; [reflexivity|].
        split; [f_equal; lia | assumption].
    + destruct Lsig as (-> & Lsig). cbn [fst snd].
      destruct (Nat.leb_spec
                  (loop_points ports_data net host order + 1) m); [lia|].
      auto 10.
Qed.

(** The body of the [with] block and the shutdown that ends it. *)
Lemma executor_body_run (start total : Z) (ports order : list Z)
    (f : PortScanner.frame) :
  let run :=
    try_finally
      (PortScanner.submit_all ports ;;
       PortScanner.handle_futures ports_data net clock host start total order ;;
       PortScanner.tick)
      (PortScanner.shutdown ports_data net host) f in
  let k := match PortScanner.sigint f with
           | [] => List.length order
           | m :: _ => handled ports_data net host (m - List.length ports) order
           end in
  let j := match PortScanner.sigint f with
           | [] => List.length ports
           | m :: _ => m
           end in
  let points :=
    (List.length ports + loop_points ports_data net host order + 1)%nat in
  (fst run = Ret tt \/ fst run = Interrupt)
  /\ PortScanner.results (snd run)
     = (PortScanner.results f
        ++ loop_results ports_data net clock host start total
             (PortScanner.ports_scanned f) (PortScanner.time_calls f)
             (firstn k order))%list
  /\ submitted (PortScanner.sys (snd run))
     = (submitted (PortScanner.sys f) ++ firstn j ports)%list
  /\ (exists lines,
        stdout (PortScanner.sys (snd run))
        = (stdout (PortScanner.sys f) ++ lines)%list
        /\ StronglySorted Z.lt (map fst (progress_lines lines))
        /\ Forall (fun l => PortScanner.ports_scanned f < fst l
                            <= PortScanner.ports_scanned f
                               + Z.of_nat (List.length order)
                            /\ fst l mod 1000 = 0 /\ snd l = total)
             (progress_lines lines))
  /\ (pool (PortScanner.sys f) = [] -> incl ports order ->
      match PortScanner.sigint f with
      | [] => fst run = Ret tt /\ PortScanner.sigint (snd run) = []
              /\ pool (PortScanner.sys (snd run)) = []
              /\ stdout (PortScanner.sys (snd run))
                 = (stdout (PortScanner.sys f)
                    ++ loop_lines ports_data net clock host start total
                         (PortScanner.ports_scanned f)
                         (PortScanner.time_calls f) order)%list
      | m :: later =>
          if (points <=? m)%nat
          then fst run = Ret tt
               /\ PortScanner.sigint (snd run) = ((m - points)%nat :: later)
               /\ pool (PortScanner.sys (snd run)) = []
          else fst run = Interrupt
               /\ (later = [] ->
                   PortScanner.sigint (snd run) = []
                   /\ pool (PortScanner.sys (snd run)) = [])
      end).
Proof.
  cbn zeta. unfold try_finally. rewrite bind_run.
  pose proof (submit_all_run ports f) as Hsubmit. cbn zeta in Hsubmit.
  destruct (PortScanner.submit_all ports f) as [r1 f1].
  cbn [fst snd] in Hsubmit.
  destruct Hsubmit as (Hres1 & Hcount1 & Hreads1 & Hout1 & Hsig1).
  assert (Hcases :
    (r1 = Interrupt
     /\ exists m later, PortScanner.sigint f = m :: later
                        /\ (m < List.length ports)%nat
                        /\ PortScanner.sigint f1 = later
                        /\ submitted (PortScanner.sys f1)
                           = (submitted (PortScanner.sys f)
                              ++ firstn m ports)%list)
    \/ (r1 = Ret tt
        /\ pool (PortScanner.sys f1)
           = (pool (PortScanner.sys f) ++ ports)%list
        /\ submitted (PortScanner.sys f1)
           = (submitted (PortScanner.sys f) ++ ports)%list
        /\ match PortScanner.sigint f with
           | [] => PortScanner.sigint f1 = []
           | m :: later =>
               (List.length ports <= m)%nat
               /\ PortScanner.sigint f1
                  = ((m - List.length ports)%nat :: later)
           end)).
  { destruct (PortScanner.sigint f) as [|m later].
    - right. tauto.
    - destruct Hsig1 as (Hsub & Hfit).
      destruct (Nat.leb_spec (List.length ports) m).
      + right. rewrite firstn_all2 in Hsub by assumption. tauto.
      + left. split; [tauto|]. exists m, later. tauto. }
  clear Hsig1.
  destruct Hcases as [(-> & m & later & Hsig & Hcut & Hsig1 & Hsub1)
                     | (-> & Hpool1 & Hsub1 & Hsig1)].
  - (* interrupted while submitting *)
    pose proof (shutdown_run f1) as Hdown. cbn zeta in Hdown.
    destruct (PortScanner.shutdown ports_data net host f1) as [d1 g1].
    cbn [fst snd] in Hdown.
    destruct Hdown as (Dout & Dquiet & _ & Dres & Dcount & Dsub & m1 & Dstd & Dm).
    rewrite Hsig.
    replace (m - List.length ports)%nat with O by lia.
    rewrite handled_none. cbn [firstn loop_results]. rewrite app_nil_r.
    assert (Hlines :
      exists lines : list message,
        stdout (PortScanner.sys g1) = (stdout (PortScanner.sys f) ++ lines)%list
        /\ StronglySorted Z.lt (map fst (progress_lines lines))
        /\ Forall (fun l => PortScanner.ports_scanned f < fst l
                            <= PortScanner.ports_scanned f
                               + Z.of_nat (List.length order)
                            /\ fst l mod 1000 = 0 /\ snd l = total)
             (progress_lines lines)).
    { exists m1. rewrite Dstd, Hout1, Dm. repeat constructor. }
    assert (Hcase :
      (List.length ports + loop_points ports_data net host order + 1 <=? m)%nat
      = false).
    { apply Nat.leb_gt. lia. }
    rewrite Hcase.
    assert (Hquiet : later = [] ->
              PortScanner.sigint g1 = [] /\ pool (PortScanner.sys g1) = []).
    { intros ->. destruct (Dquiet Hsig1) as (_ & ? & ?). auto. }
    destruct Dout as [-> | ->]; cbn [fst snd];
      (split; [auto|]); (split; [congruence|]); (split; [congruence|]);
      (split; [assumption|]); auto.
  - (* every task was submitted: the loop runs *)
    assert (Hloop := loop_run start total order f1). cbn zeta in Hloop.
    destruct ((PortScanner.handle_futures ports_data net clock host start total
                 order ;;
               PortScanner.tick) f1) as [r2 f2].
    cbn [fst snd] in Hloop.
    destruct Hloop as (Lout & Lres & Lsub & (l2 & Lstd & Lsorted & Lall) & Lsig).
    rewrite Hres1, Hcount1, Hreads1 in Lres. rewrite Hcount1 in Lall.
    pose proof (shutdown_run f2) as Hdown. cbn zeta in Hdown.
    destruct (PortScanner.shutdown ports_data net host f2) as [d2 g2].
    cbn [fst snd] in Hdown.
    destruct Hdown as (Dout & Dquiet & Didle & Dres & Dcount & Dsub & m2 & Dstd & Dm).
    assert (Hlines :
      exists lines : list message,
        stdout (PortScanner.sys g2) = (stdout (PortScanner.sys f) ++ lines)%list
        /\ StronglySorted Z.lt (map fst (progress_lines lines))
        /\ Forall (fun l => PortScanner.ports_scanned f < fst l
                            <= PortScanner.ports_scanned f
                               + Z.of_nat (List.length order)
                            /\ fst l mod 1000 = 0 /\ snd l = total)
             (progress_lines lines)).
    { exists (l2 ++ m2)%list. rewrite Dstd, Lstd, Hout1, <- app_assoc.
      split; [reflexivity|].
      unfold progress_lines in *. rewrite flat_map_app, Dm, app_nil_r. auto. }
    assert (Hresults :
      PortScanner.results g2
      = (PortScanner.results f
         ++ loop_results ports_data net clock host start total
              (PortScanner.ports_scanned f) (PortScanner.time_calls f)
              (firstn match PortScanner.sigint f with
                      | [] => List.length order
                      | m :: _ =>
                          handled ports_data net host
                            (m - List.length ports) order
                      end order))%list).
    { rewrite Dres, Lres.
      destruct (PortScanner.sigint f) as [|m later];
        [now rewrite Hsig1 | destruct Hsig1 as [_ ->]; reflexivity]. }
    assert (Hsubmitted :
      submitted (PortScanner.sys g2)
      = (submitted (PortScanner.sys f)
         ++ firstn match PortScanner.sigint f with
                   | [] => List.length ports
                   | m :: _ => m
                   end ports)%list).
    { rewrite Dsub, Lsub, Hsub1.
      destruct (PortScanner.sigint f) as [|m later];
        [now rewrite firstn_all | destruct Hsig1 as [Hfit _]].
      now rewrite firstn_all2 by assumption. }
    assert (Hout : (fst (match d2 with
                         | Ret _ => (r2, g2)
                         | Raise e => (Raise e, g2)
                         | Interrupt => (Interrupt, g2)
                         end) = Ret tt
                    \/ fst (match d2 with
                            | Ret _ => (r2, g2)
                            | Raise e => (Raise e, g2)
                            | Interrupt => (Interrupt, g2)
                            end) = Interrupt)
                   /\ snd (match d2 with
                           | Ret _ => (r2, g2)
                           | Raise e => (Raise e, g2)
                           | Interrupt => (Interrupt, g2)
                           end) = g2).
    { destruct Dout as [-> | ->]; cbn [fst snd]; auto. }
    destruct Hout as [Hout ->].
    split; [assumption|]. split; [assumption|]. split; [assumption|].
    split; [assumption|].
    intros Hempty Hincl.
    assert (Hqueue : incl (pool (PortScanner.sys f1)) order)
      by (rewrite Hpool1, Hempty; exact Hincl).
    destruct (PortScanner.sigint f) as [|m later].
    + rewrite Hsig1 in Lsig. destruct Lsig as (-> & Lsig & Lpool & Lcons).
      specialize (Didle (Lpool Hqueue)). injection Didle as -> ->.
      cbn [fst]. split; [reflexivity|]. split; [assumption|].
      split; [auto|]. now rewrite Lcons, Hout1, Hcount1, Hreads1.
    + destruct Hsig1 as [Hfit Hsig1]. rewrite Hsig1 in Lsig.
      destruct (Nat.leb_spec (loop_points ports_data net host order + 1)
                  (m - List.length ports)) as [Hpass | Hstop].
      * destruct (Nat.leb_spec
                    (List.length ports + loop_points ports_data net host order
                     + 1) m); [|lia].
        destruct Lsig as (-> & Lsig & Lpool).
        specialize (Didle (Lpool Hqueue)). injection Didle as -> ->.
        cbn [fst]. split; [reflexivity|].
        split; [rewrite Lsig; f_equal; lia | auto].
      * destruct (Nat.leb_spec
                    (List.length ports + loop_points ports_data net host order
                     + 1) m); [lia|].
        destruct Lsig as (-> & Lsig).
        split; [destruct Dout as [-> | ->]; reflexivity|].
        intros ->. destruct (Dquiet Lsig) as (_ & ? & ?). auto.
Qed.

(** What the turns of the loop append. *)
Lemma turn_results_In (start total n : Z) (k : nat) (p : Z) (r : probe_result) :
  In r (turn_results ports_data net clock host start total n k p) ->
  probe ports_data net host p = Ret r /\ status r = OPEN.
Proof.
  unfold turn_results, open_result.
  destruct (returns ports_data net host p && reports n
            && report_fails clock start total k); [contradiction|].
  destruct (probe ports_data net host p) as [r'|e|]; try contradiction.
  destruct (status r') eqn:Hst; [|contradiction].
  intros [-> | []]. auto.
Qed.

Lemma loop_results_In (start total : Z) (order : list Z) (r : probe_result) :
  forall n k,
  In r (loop_results ports_data net clock host start total n k order) ->
  exists q, In q order /\ probe ports_data net host q = Ret r
            /\ status r = OPEN.
Proof.
  induction order as [|p rest IH]; intros n k; cbn [loop_results];
    [contradiction|].
  rewrite in_app_iff. intros [Hin | Hin].
  - apply turn_results_In in Hin. exists p. split; [now left | assumption].
  - destruct (IH _ _ Hin) as (q & Hq & Hr). exists q. split; [now right | auto].
Qed.

Lemma loop_results_picked (start total : Z) (order : list Z) :
  NoDup order ->
  forall n k,
  picked ports_data net host order
    (loop_results ports_data net clock host start total n k order).
Proof.
  induction 1 as [|p rest Hnotin Hnodup IH]; intros n k;
    [split; constructor|].
  cbn [loop_results].
  destruct (IH (counted ports_data net host n p)
               (reads_after ports_data net host n k p)) as [IHnodup IHall].
  assert (Hturn :
    turn_results ports_data net clock host start total n k p = []
    \/ exists r, turn_results ports_data net clock host start total n k p = [r]
                 /\ probe ports_data net host p = Ret r /\ status r = OPEN).
  { destruct (turn_results ports_data net clock host start total n k p)
      as [|r more] eqn:Hturn; [now left | right].
    assert (Hr : In r (turn_results ports_data net clock host start total n k p))
      by (rewrite Hturn; now left).
    apply turn_results_In in Hr. exists r. split; [|assumption].
    revert Hturn. unfold turn_results, open_result.
    destruct (returns ports_data net host p && reports n
              && report_fails clock start total k); [discriminate|].
    destruct (probe ports_data net host p) as [r'|e|]; try discriminate.
    destruct (status r'); [|discriminate]. now intros [= -> <-]. }
  assert (Hrest :
    Forall (fun r => In (port r) (p :: rest)
                     /\ probe ports_data net host (port r) = Ret r
                     /\ status r = OPEN)
      (loop_results ports_data net clock host start total
         (counted ports_data net host n p)
         (reads_after ports_data net host n k p) rest)).
  { eapply Forall_impl; [|exact IHall]. cbn beta.
    intros r (Hin & Hr). split; [now right | assumption]. }
  destruct Hturn as [-> | (r & -> & Hprobe & Hst)]; cbn [app map].
  - split; assumption.
  - pose proof (probe_port _ _ _ _ _ Hprobe) as Hport.
    split.
    + constructor; [|assumption]. rewrite Hport. intros Hin.
      apply in_map_iff in Hin as (r' & Hport' & Hr').
      rewrite Forall_forall in IHall. destruct (IHall r' Hr') as (Hin' & _).
      apply Hnotin. now rewrite <- Hport'.
    + constructor; [|assumption]. rewrite Hport. split; [now left | auto].
Qed.

Lemma picked_incl (order order' : list Z) (extra : list probe_result) :
  incl order order' ->
  picked ports_data net host order extra ->
  picked ports_data net host order' extra.
Proof.
  intros Hincl [Hnodup Hall]. split; [assumption|].
  eapply Forall_impl; [|exact Hall]. cbn beta.
  intros r (Hin & Hr). split; [now apply Hincl | assumption].
Qed.

Lemma firstn_NoDup (k : nat) (l : list Z) : NoDup l -> NoDup (firstn k l).
Proof.
  intros Hnodup. rewrite <- (firstn_skipn k l) in Hnodup.
  now apply NoDup_app_remove_r in Hnodup.
Qed.

Lemma firstn_incl (k : nat) (l : list Z) : incl (firstn k l) l.
Proof.
  intros x Hx. rewrite <- (firstn_skipn k l). apply in_or_app. now left.
Qed.

(** When no progress report fails from the [k]-th reading on, the loop
    appends the OPEN result of every future that returned. *)
Lemma loop_results_complete (start total : Z) (order : list Z) :
  forall n k,
  (forall j, (k <= j)%nat -> report_fails clock start total j = false) ->
  loop_results ports_data net clock host start total n k order
  = flat_map (open_result ports_data net host) order.
Proof.
  induction order as [|p rest IH]; intros n k Hfine; [reflexivity|].
  cbn [loop_results flat_map]. f_equal.
  - unfold turn_results. rewrite (Hfine k) by lia.
    now rewrite andb_false_r.
  - apply IH. intros j Hj. apply Hfine. unfold reads_after in Hj.
    destruct (returns ports_data net host p && reports n); lia.
Qed.

(** What [open_result] collects. *)
Lemma open_result_In (r : probe_result) (order : list Z) :
  In r (flat_map (open_result ports_data net host) order)
  <-> exists q, In q order /\ probe ports_data net host q = Ret r
                /\ status r = OPEN.
Proof.
  rewrite in_flat_map. unfold open_result. split.
  - intros (q & Hq & Hin). exists q. split; [assumption|].
    destruct (probe ports_data net host q) as [r'|e|]; try contradiction.
    destruct (status r') eqn:Hst; [|contradiction].
    destruct Hin as [->|[]]. auto.
  - intros (q & Hq & Hprobe & Hst). exists q. split; [assumption|].
    rewrite Hprobe, Hst. now left.
Qed.

(** The handler of the interrupt and the [return] of [scan]. *)
Lemma handler_run (f : PortScanner.frame) :
  let run := (PortScanner.tick ;;
              PortScanner.in_world (print ScanInterrupted)) f in
  (fst run = Ret tt \/ fst run = Interrupt)
  /\ (PortScanner.sigint f = [] ->
      fst run = Ret tt /\ PortScanner.sigint (snd run) = [])
  /\ PortScanner.results (snd run) = PortScanner.results f
  /\ submitted (PortScanner.sys (snd run)) = submitted (PortScanner.sys f)
  /\ pool (PortScanner.sys (snd run)) = pool (PortScanner.sys f)
  /\ exists lines,
       stdout (PortScanner.sys (snd run))
       = (stdout (PortScanner.sys f) ++ lines)%list
       /\ progress_lines lines = [].
Proof.
  destruct f as [res n k w sg].
  destruct sg as [|[|m] later]; run_frame;
    (split; [auto|]); (split; [auto; intros [=]|]);
    repeat (split; [reflexivity|]);
    first [ exists [ScanInterrupted]; split; reflexivity
          | exists []; now rewrite app_nil_r ].
Qed.

Lemma return_run (f : PortScanner.frame) :
  let run := (PortScanner.tick ;;
              collected <- gets PortScanner.results ;;
              ret (PortScanner.sorted_by_port collected)) f in
  (fst run = Ret (PortScanner.sorted_by_port (PortScanner.results f))
   \/ fst run = Interrupt)
  /\ (PortScanner.sigint f = [] ->
      fst run = Ret (PortScanner.sorted_by_port (PortScanner.results f)))
  /\ PortScanner.sys (snd run) = PortScanner.sys f.
Proof.
  destruct f as [res n k w sg].
  destruct sg as [|[|m] later]; run_frame; auto; intuition discriminate.
Qed.

Lemma tick_cases (f : PortScanner.frame) :
  (PortScanner.sigint f = [] /\ PortScanner.tick f = (Ret tt, f))
  \/ (exists later,
        PortScanner.sigint f = O :: later
        /\ PortScanner.tick f = (Interrupt, PortScanner.set_sigint later f))
  \/ (exists m later,
        PortScanner.sigint f = S m :: later
        /\ PortScanner.tick f
           = (Ret tt, PortScanner.set_sigint (m :: later) f)).
Proof.
  unfold PortScanner.tick.
  destruct (PortScanner.sigint f) as [|[|m] later]; eauto 6.
Qed.

Lemma with_executor_run (threads : Z) (body : M PortScanner.frame unit)
    (f : PortScanner.frame) :
  0 < threads ->
  PortScanner.with_executor ports_data net host threads body f
  = match PortScanner.tick f with
    | (Ret _, f1) =>
        try_finally body (PortScanner.shutdown ports_data net host)
          {| PortScanner.results := PortScanner.results f1;
             PortScanner.ports_scanned := PortScanner.ports_scanned f1;
             PortScanner.time_calls := PortScanner.time_calls f1;
             PortScanner.sys :=
               set_pool (submitted (PortScanner.sys f1)) []
                 (PortScanner.sys f1);
             PortScanner.sigint := PortScanner.sigint f1 |}
    | (Raise e, f1) => (Raise e, f1)
    | (Interrupt, f1) => (Interrupt, f1)
    end.
Proof.
  intros Hthreads. unfold PortScanner.with_executor. rewrite bind_run.
  assert (Hpool : (threads <=? 0) = false) by lia. rewrite Hpool.
  destruct (PortScanner.tick f) as [[[]|e|] f1]; reflexivity.
Qed.

(** The [try] block of [scan] and its handler, when the pool can be
    created. *)
Lemma attempt_run (start total threads : Z) (ports order : list Z)
    (f : PortScanner.frame) :
  0 < threads ->
  incl ports order ->
  let run :=
    try_except_interrupt
      (PortScanner.with_executor ports_data net host threads
         (PortScanner.submit_all ports ;;
          PortScanner.handle_futures ports_data net clock host start total
            order ;;
          PortScanner.tick))
      (PortScanner.tick ;; PortScanner.in_world (print ScanInterrupted)) f in
  let k := match PortScanner.sigint f with
           | [] => List.length order
           | m :: _ =>
               handled ports_data net host (m - S (List.length ports)) order
           end in
  let j := match PortScanner.sigint f with
           | [] => List.length ports
           | m :: _ => (m - 1)%nat
           end in
  let points :=
    S (List.length ports + loop_points ports_data net host order + 1) in
  (fst run = Ret tt \/ fst run = Interrupt)
  /\ PortScanner.results (snd run)
     = (PortScanner.results f
        ++ loop_results ports_data net clock host start total
             (PortScanner.ports_scanned f) (PortScanner.time_calls f)
             (firstn k order))%list
  /\ submitted (PortScanner.sys (snd run))
     = (submitted (PortScanner.sys f) ++ firstn j ports)%list
  /\ (exists lines,
        stdout (PortScanner.sys (snd run))
        = (stdout (PortScanner.sys f) ++ lines)%list
        /\ StronglySorted Z.lt (map fst (progress_lines lines))
        /\ Forall (fun l => PortScanner.ports_scanned f < fst l
                            <= PortScanner.ports_scanned f
                               + Z.of_nat (List.length order)
                            /\ fst l mod 1000 = 0 /\ snd l = total)
             (progress_lines lines))
  /\ match PortScanner.sigint f with
     | [] => fst run = Ret tt /\ PortScanner.sigint (snd run) = []
             /\ pool (PortScanner.sys (snd run)) = []
             /\ stdout (PortScanner.sys (snd run))
                = (stdout (PortScanner.sys f)
                   ++ loop_lines ports_data net clock host start total
                        (PortScanner.ports_scanned f) (PortScanner.time_calls f)
                        order)%list
     | m :: later =>
         if (points <=? m)%nat
         then fst run = Ret tt
              /\ PortScanner.sigint (snd run) = ((m - points)%nat :: later)
              /\ pool (PortScanner.sys (snd run)) = []
         else later = [] ->
              fst run = Ret tt /\ PortScanner.sigint (snd run) = []
              /\ (pool (PortScanner.sys f) = [] ->
                  pool (PortScanner.sys (snd run)) = [])
     end.
Proof.
  intros Hthreads Hincl. cbn zeta. unfold try_except_interrupt.
  rewrite with_executor_run by assumption.
  destruct (tick_cases f)
    as [[Hsig ->] | [(later & Hsig & ->) | (m & later & Hsig & ->)]];
    rewrite Hsig.
  - (* no signal *)
    match goal with
    | |- context [try_finally ?b ?c ?g] =>
        pose proof (executor_body_run start total ports order g) as Hbody;
        cbn zeta in Hbody;
        destruct (try_finally b c g) as [r f']
    end.
    cbn [fst snd PortScanner.sigint PortScanner.results
         PortScanner.ports_scanned PortScanner.time_calls PortScanner.sys
         pool submitted stdout set_pool] in Hbody.
    destruct Hbody as (Hout & Hres & Hsub & Hlines & Hquiet).
    destruct (Hquiet eq_refl Hincl) as (-> & Hsig' & Hdrained & Hcons).
    cbn [fst snd]. auto 10.
  - (* the signal arrives before the pool is created *)
    pose proof (handler_run (PortScanner.set_sigint later f)) as Hhandler.
    cbn zeta in Hhandler.
    destruct ((PortScanner.tick ;;
               PortScanner.in_world (print ScanInterrupted))
                (PortScanner.set_sigint later f)) as [r2 f2].
    cbn [fst snd PortScanner.set_sigint PortScanner.sigint PortScanner.results
         PortScanner.sys] in *.
    destruct Hhandler as (Gout & Gquiet & Gres & Gsub & Gpool & l2 & Gstd & Gl2).
    rewrite handled_none. cbn [firstn loop_results]. rewrite !app_nil_r.
    split; [assumption|]. split; [assumption|]. split; [assumption|].
    split; [exists l2; rewrite Gl2; repeat constructor; assumption|].
    cbn [Nat.leb]. intros ->. destruct (Gquiet eq_refl) as [-> Hs2].
    split; [reflexivity|]. split; [assumption|]. now rewrite Gpool.
  - match goal with
    | |- context [try_finally ?b ?c ?g] =>
        pose proof (executor_body_run start total ports order g) as Hbody;
        cbn zeta in Hbody;
        destruct (try_finally b c g) as [r f']
    end.
    cbn [fst snd PortScanner.sigint PortScanner.results
         PortScanner.ports_scanned PortScanner.time_calls PortScanner.sys
         pool submitted stdout set_pool PortScanner.set_sigint] in Hbody.
    cbn [Nat.sub]. rewrite Nat.sub_0_r.
    destruct Hbody as (Hout & Hres & Hsub & (lines & Hstd & Hsorted & Hall) & Hsig').
    specialize (Hsig' eq_refl Hincl).
    destruct Hout as [-> | ->].
    + (* the block is left at its end *)
      cbn [fst snd]. split; [auto|]. split; [assumption|].
      split; [assumption|]. split; [eauto|].
      destruct (Nat.leb_spec
                  (List.length ports + loop_points ports_data net host order + 1)
                  m) as [Hpass | Hstop].
      * destruct (Nat.leb_spec
                    (S (List.length ports
                        + loop_points ports_data net host order + 1)) (S m));
          [|lia].
        destruct Hsig' as (_ & Hsig' & Hdrained). auto.
      * destruct Hsig' as [[=] _].
    + (* the block is left by the interrupt: the handler runs *)
      pose proof (handler_run f') as Hhandler. cbn zeta in Hhandler.
      destruct ((PortScanner.tick ;;
                 PortScanner.in_world (print ScanInterrupted)) f') as [r2 f2].
      cbn [fst snd] in *.
      destruct Hhandler as (Gout & Gquiet & Gres & Gsub & Gpool & l2 & Gstd & Gl2).
      split; [assumption|]. split; [congruence|]. split; [congruence|].
      split.
      { exists (lines ++ l2)%list. rewrite Gstd, Hstd, <- app_assoc.
        split; [reflexivity|].
        unfold progress_lines in *. rewrite flat_map_app, Gl2, app_nil_r.
        auto. }
      destruct (Nat.leb_spec
                  (List.length ports + loop_points ports_data net host order + 1)
                  m) as [Hpass | Hstop].
      * destruct Hsig' as ([=] & _).
      * destruct (Nat.leb_spec
                    (S (List.length ports
                        + loop_points ports_data net host order + 1)) (S m));
          [lia|].
        intros ->. destruct Hsig' as (_ & Hsig').
        destruct (Hsig' eq_refl) as [Hs Hp].
        destruct (Gquiet Hs) as [-> Hs2]. rewrite Gpool. auto.
Qed.

Lemma as_completed_length (sched : list nat) (ports : list Z) :
  List.length (as_completed sched ports) = List.length ports.
Proof. apply Permutation_length, as_completed_Permutation. Qed.

Lemma as_completed_NoDup (sched : list nat) (a b : Z) :
  NoDup (as_completed sched (range a b)).
Proof.
  eapply Permutation_NoDup; [|apply range_NoDup].
  symmetry. apply as_completed_Permutation.
Qed.

Lemma as_completed_incl (sched : list nat) (ports : list Z) :
  incl ports (as_completed sched ports).
Proof.
  intros q Hq.
  eapply Permutation_in; [symmetry; apply as_completed_Permutation | exact Hq].
Qed.

(** [scan], step by step. *)
Lemma scan_eq (sched signals : list nat)
    (start_port end_port threads : Z) (w : world) :
  PortScanner.scan ports_data net clock sched signals host
    start_port end_port threads w
  = match PortScanner.tick
            {| PortScanner.results := []; PortScanner.ports_scanned := 0;
               PortScanner.time_calls := O; PortScanner.sys := w;
               PortScanner.sigint := signals |} with
    | (Ret _, f1) =>
        match
          try_except_interrupt
            (PortScanner.with_executor ports_data net host threads
               (PortScanner.submit_all (range start_port (end_port + 1)) ;;
                PortScanner.handle_futures ports_data net clock host
                  (clock (PortScanner.time_calls f1))
                  (end_port - start_port + 1)
                  (as_completed sched (range start_port (end_port + 1))) ;;
                PortScanner.tick))
            (PortScanner.tick ;; PortScanner.in_world (print ScanInterrupted))
            {| PortScanner.results := PortScanner.results f1;
               PortScanner.ports_scanned := PortScanner.ports_scanned f1;
               PortScanner.time_calls := S (PortScanner.time_calls f1);
               PortScanner.sys := PortScanner.sys f1;
               PortScanner.sigint := PortScanner.sigint f1 |}
        with
        | (Ret _, f2) =>
            let '(r, f3) :=
              (PortScanner.tick ;;
               collected <- gets PortScanner.results ;;
               ret (PortScanner.sorted_by_port collected)) f2 in
            (r, PortScanner.sys f3)
        | (Raise e, f2) => (Raise e, PortScanner.sys f2)
        | (Interrupt, f2) => (Interrupt, PortScanner.sys f2)
        end
    | (Raise e, f1) => (Raise e, PortScanner.sys f1)
    | (Interrupt, f1) => (Interrupt, PortScanner.sys f1)
    end.
Proof.
  unfold PortScanner.scan. cbn zeta. rewrite bind_run.
  destruct (PortScanner.tick _) as [[[]|e|] f1]; try reflexivity.
  rewrite bind_run. unfold PortScanner.time_time. cbn beta iota.
  rewrite bind_run.
  destruct (try_except_interrupt _ _ _) as [[[]|e|] f2]; reflexivity.
Qed.

(** The whole of [scan] when the pool can be created.  The list it
    returns, if it returns, holds what the loop appended before the first
    signal; it returns when no signal arrives, and when a single one
    arrives inside the [try] block. *)
Lemma scan_run (sched signals : list nat)
    (start_port end_port threads : Z) (w : world) :
  0 < threads ->
  let ports := range start_port (end_port + 1) in
  let order := as_completed sched ports in
  let total := end_port - start_port + 1 in
  let run := PortScanner.scan ports_data net clock sched signals host
               start_port end_port threads w in
  let k := match signals with
           | [] => List.length order
           | O :: _ => O
           | S n :: _ =>
               handled ports_data net host (n - S (List.length ports)) order
           end in
  let j := match signals with
           | [] => List.length ports
           | n :: _ => (n - 2)%nat
           end in
  let collected :=
    loop_results ports_data net clock host (clock O) total 0 1
      (firstn k order) in
  (fst run = Ret (PortScanner.sorted_by_port collected) \/ fst run = Interrupt)
  /\ (signals = [] ->
      fst run = Ret (PortScanner.sorted_by_port collected)
      /\ stdout (snd run)
         = (stdout w
            ++ loop_lines ports_data net clock host (clock O) total 0 1
                 order)%list)
  /\ (forall n, signals = [S n] ->
        (n < try_points ports_data net host order)%nat ->
        fst run = Ret (PortScanner.sorted_by_port collected))
  /\ submitted (snd run) = (submitted w ++ firstn j ports)%list
  /\ (exists lines,
        stdout (snd run) = (stdout w ++ lines)%list
        /\ StronglySorted Z.lt (map fst (progress_lines lines))
        /\ Forall (fun l => 0 < fst l <= Z.of_nat (List.length order)
                            /\ fst l mod 1000 = 0 /\ snd l = total)
             (progress_lines lines))
  /\ ((List.length signals <= 1)%nat -> pool w = [] -> pool (snd run) = []).
Proof.
  intros Hthreads. cbn zeta. unfold try_points.
  pose proof (as_completed_incl sched (range start_port (end_port + 1)))
    as Hincl.
  pose proof (as_completed_length sched (range start_port (end_port + 1)))
    as Hlen.
  revert Hincl Hlen.
  rewrite scan_eq.
  generalize (as_completed sched (range start_port (end_port + 1))).
  generalize (range start_port (end_port + 1)).
  intros ports order Hincl Hlen. rewrite !Hlen.
  match goal with
  | |- context [PortScanner.tick ?f0] =>
      destruct (tick_cases f0)
        as [[Hsig ->] | [(later & Hsig & ->) | (m & later & Hsig & ->)]]
  end; cbn [PortScanner.sigint] in Hsig; subst signals.
  - (* no signal *)
    cbn [PortScanner.results PortScanner.ports_scanned PortScanner.time_calls
         PortScanner.sys PortScanner.sigint].
    match goal with
    | |- context [try_except_interrupt ?b ?h ?f] =>
        pose proof (attempt_run (clock O) (end_port - start_port + 1) threads
                      ports order f Hthreads Hincl) as Htry;
        cbn zeta in Htry;
        destruct (try_except_interrupt b h f) as [r1 f1]
    end.
    cbn [fst snd PortScanner.results PortScanner.ports_scanned
         PortScanner.time_calls PortScanner.sys PortScanner.sigint] in Htry.
    rewrite ?Hlen in Htry.
    destruct Htry
      as (_ & Hres & Hsub & (lines & Hstd & Hsorted & Hall)
          & -> & Hsig & Hdrained & Hcons).
    pose proof (return_run f1) as Hreturn. cbn zeta in Hreturn.
    destruct ((PortScanner.tick ;;
               collected <- gets PortScanner.results ;;
               ret (PortScanner.sorted_by_port collected)) f1) as [r2 f2].
    cbn [fst snd] in *.
    destruct Hreturn as (_ & Hquiet & Hsys). rewrite (Hquiet Hsig), Hsys, Hres.
    cbn [app].
    split; [auto|]. split; [auto|]. split; [discriminate|].
    split; [assumption|]. split; [|auto].
    exists lines. split; [assumption|]. split; [assumption|].
    eapply Forall_impl; [|exact Hall]. cbn beta. intros l. lia.
  - (* the signal arrives before the [try] block *)
    cbn. rewrite app_nil_r.
    split; [auto|]. split; [discriminate|]. split; [discriminate|].
    split; [reflexivity|]. split; [|auto].
    exists []. rewrite app_nil_r. repeat constructor.
  - cbn [PortScanner.results PortScanner.ports_scanned PortScanner.time_calls
         PortScanner.sys PortScanner.sigint PortScanner.set_sigint].
    match goal with
    | |- context [try_except_interrupt ?b ?h ?f] =>
        pose proof (attempt_run (clock O) (end_port - start_port + 1) threads
                      ports order f Hthreads Hincl) as Htry;
        cbn zeta in Htry;
        destruct (try_except_interrupt b h f) as [r1 f1]
    end.
    cbn [fst snd PortScanner.results PortScanner.ports_scanned
         PortScanner.time_calls PortScanner.sys PortScanner.sigint] in Htry.
    rewrite ?Hlen in Htry.
    destruct Htry
      as (Hout & Hres & Hsub & (lines & Hstd & Hsorted & Hall) & Hsig).
    assert (Hlines :
      exists lines : list message,
        stdout (PortScanner.sys f1) = (stdout w ++ lines)%list
        /\ StronglySorted Z.lt (map fst (progress_lines lines))
        /\ Forall (fun l => 0 < fst l <= Z.of_nat (List.length ports)
                            /\ fst l mod 1000 = 0
                            /\ snd l = end_port - start_port + 1)
             (progress_lines lines)).
    { exists lines. split; [assumption|]. split; [assumption|].
      eapply Forall_impl; [|exact Hall]. cbn beta. intros l. lia. }
    assert (Hsame : (S m - 2)%nat = (m - 1)%nat) by lia. rewrite Hsame.
    destruct Hout as [-> | ->].
    + pose proof (return_run f1) as Hreturn. cbn zeta in Hreturn.
      destruct ((PortScanner.tick ;;
                 collected <- gets PortScanner.results ;;
                 ret (PortScanner.sorted_by_port collected)) f1) as [r2 f2].
      cbn [fst snd] in *.
      destruct Hreturn as (Rout & Rquiet & Rsys). rewrite Rsys, Hres in *.
      cbn [app] in *.
      split; [assumption|]. split; [discriminate|].
      split.
      { intros n [= -> ->] Hin.
        destruct (Nat.leb_spec
                    (S (List.length ports
                        + loop_points ports_data net host order + 1)) n);
          [lia|].
        destruct (Hsig eq_refl) as (_ & Hquiet & _). now apply Rquiet. }
      split; [assumption|]. split; [assumption|].
      intros Hone Hempty. cbn [List.length] in Hone.
      assert (later = []) as -> by (destruct later; [reflexivity | cbn in Hone; lia]).
      destruct (Nat.leb_spec
                  (S (List.length ports
                      + loop_points ports_data net host order + 1)) m).
      * now destruct Hsig as (_ & _ & ?).
      * destruct (Hsig eq_refl) as (_ & _ & Hdrained). now apply Hdrained.
    + cbn [fst snd].
      split; [auto|]. split; [discriminate|].
      split.
      { intros n [= -> ->] Hin.
        destruct (Nat.leb_spec
                    (S (List.length ports
                        + loop_points ports_data net host order + 1)) n);
          [lia|].
        now destruct (Hsig eq_refl) as ([=] & _). }
      split; [assumption|]. split; [assumption|].
      intros Hone Hempty. cbn [List.length] in Hone.
      assert (later = []) as -> by (destruct later; [reflexivity | cbn in Hone; lia]).
      destruct (Nat.leb_spec
                  (S (List.length ports
                      + loop_points ports_data net host order + 1)) m).
      * now destruct Hsig as ([=] & _).
      * now destruct (Hsig eq_refl) as ([=] & _).
Qed.

(** [scan] when the pool cannot be created: ValueError, unless a signal
    arrives before the constructor is called. *)
Lemma scan_without_pool (sched signals : list nat)
    (start_port end_port threads : Z) (w : world) :
  threads <= 0 ->
  let run := PortScanner.scan ports_data net clock sched signals host
               start_port end_port threads w in
  (fst run = Raise ValueError \/ fst run = Ret [] \/ fst run = Interrupt)
  /\ (match signals with
      | [] => True
      | n :: _ => (2 <= n)%nat
      end -> run = (Raise ValueError, w))
  /\ submitted (snd run) = submitted w
  /\ pool (snd run) = pool w
  /\ (stdout (snd run) = stdout w
      \/ stdout (snd run) = (stdout w ++ [ScanInterrupted])%list).
Proof.
  intros Hthreads. cbn zeta.
  unfold PortScanner.scan, try_except_interrupt, PortScanner.with_executor.
  assert (Hpool : (threads <=? 0) = true) by lia.
  destruct w.
  destruct signals as [|[|[|n]] [|[|[|d]] later]]; cbn; rewrite ?Hpool; cbn;
    intuition (auto; lia).
Qed.

End Scan.

(** ** The report of a scan *)

Section Report.

Variable ports_data : json.
Variable net : network.
Variable clock : nat -> Z.
Variable host : string.

(** Results picked from distinct ports, once sorted. *)
Lemma picked_sorted (order : list Z) (extra : list probe_result) :
  picked ports_data net host order extra ->
  let l := PortScanner.sorted_by_port extra in
  Forall (fun r => status r = OPEN) l
  /\ StronglySorted Z.lt (map port l)
  /\ NoDup (map port l).
Proof.
  intros [Hnodup Hall] l.
  assert (Hperm := sorted_by_port_Permutation extra). fold l in Hperm.
  assert (Hports : NoDup (map port l)).
  { eapply Permutation_NoDup;
      [apply Permutation_map; symmetry; exact Hperm | exact Hnodup]. }
  split; [|split; [|assumption]].
  - apply Forall_forall. intros r Hr.
    eapply Permutation_in in Hr; [|exact Hperm].
    rewrite Forall_forall in Hall. now apply Hall in Hr.
  - apply sorted_distinct_strict; [|assumption].
    apply sorted_by_port_sorted.
Qed.

(** What the loop has appended after the first [k] futures of a scan. *)
Lemma collected_picked (sched : list nat) (start_port end_port start total n : Z)
    (reads k : nat) :
  let order := as_completed sched (range start_port (end_port + 1)) in
  picked ports_data net host order
    (loop_results ports_data net clock host start total n reads
       (firstn k order)).
Proof.
  cbn zeta. eapply picked_incl; [apply firstn_incl|].
  apply loop_results_picked, firstn_NoDup, as_completed_NoDup.
Qed.

(** With a clock that moves, no progress report of a scan fails, and the
    loop appends the OPEN result of every future it handles. *)
Lemma collected_complete (sched : list nat) (start_port end_port : Z) (k : nat) :
  clock_moves clock ->
  let order := as_completed sched (range start_port (end_port + 1)) in
  loop_results ports_data net clock host (clock O)
    (end_port - start_port + 1) 0 1 (firstn k order)
  = flat_map (open_result ports_data net host) (firstn k order).
Proof.
  intros Hmoves. cbn zeta.
  destruct (Z.le_gt_cases (end_port + 1) start_port) as [Hempty | Hsome].
  - rewrite range_empty by assumption. now destruct k.
  - apply loop_results_complete. intros j Hj. unfold report_fails.
    apply orb_false_iff. split.
    + apply Z.eqb_neq. specialize (Hmoves j Hj). lia.
    + apply Z.eqb_neq. lia.
Qed.

(** C1.  Whatever the scheduler, the clock and the signals do, the list
    [scan] returns holds only OPEN results, is strictly ascending by port
    and so holds no port twice.  With a pool that can be created, [scan]
    is left by a list or by KeyboardInterrupt, and by a list when no
    signal arrives or a single one arrives inside the [try] block. *)
Theorem scan_report_open_sorted (sched signals : list nat)
    (start_port end_port threads : Z) (w : world) :
  let returned := fst (PortScanner.scan ports_data net clock sched signals host
                         start_port end_port threads w) in
  let order := as_completed sched (range start_port (end_port + 1)) in
  (0 < threads -> (exists l, returned = Ret l) \/ returned = Interrupt)
  /\ (0 < threads ->
      signals = []
      \/ (exists n, signals = [S n]
                    /\ (n < try_points ports_data net host order)%nat) ->
      exists l, returned = Ret l)
  /\ (forall l, returned = Ret l ->
      Forall (fun r => status r = OPEN) l
      /\ StronglySorted Z.lt (map port l)
      /\ NoDup (map port l)).
Proof.
  cbn zeta. destruct (Z.lt_ge_cases 0 threads) as [Hpool | Hnopool].
  - destruct (scan_run ports_data net clock host sched signals start_port
                end_port threads w Hpool)
      as (Hout & Hquiet & Hsingle & _).
    split; [intros _; destruct Hout as [-> | ->]; eauto|].
    split.
    + intros _ [-> | (n & -> & Hn)].
      * destruct (Hquiet eq_refl) as [-> _]. eauto.
      * rewrite (Hsingle n eq_refl Hn). eauto.
    + intros l Hl. destruct Hout as [Hout | Hout];
        rewrite Hout in Hl; [|discriminate].
      injection Hl as <-. eapply picked_sorted, collected_picked.
  - destruct (scan_without_pool ports_data net clock host sched signals
                start_port end_port threads w Hnopool) as (Hout & _).
    cbn zeta in Hout.
    split; [lia|]. split; [lia|].
    intros l Hl. rewrite Hl in Hout.
    destruct Hout as [[=] | [[= ->] | [=]]]. repeat constructor.
Qed.

(** C5, amended.  A single signal that is delivered inside the [try]
    block of [scan] (at the delivery point that follows [n] others of the
    block) does not make it raise: [scan] returns a list that is sorted
    ascending by port and holds only OPEN results of futures the loop had
    handled to the end by then, which are the first [seen] in the order
    of completion; and it holds all of them when the clock moves, which
    keeps every progress report from failing. *)
Theorem scan_interrupted_returns_collected (sched : list nat) (n : nat)
    (start_port end_port threads : Z) (w : world) :
  0 < threads ->
  let order := as_completed sched (range start_port (end_port + 1)) in
  (n < try_points ports_data net host order)%nat ->
  let seen := handled ports_data net host (n - S (List.length order)) order in
  exists l,
    fst (PortScanner.scan ports_data net clock sched [S n] host
           start_port end_port threads w) = Ret l
    /\ StronglySorted Z.lt (map port l)
    /\ (forall r, In r l ->
          exists q, In q (firstn seen order)
                    /\ probe ports_data net host q = Ret r
                    /\ status r = OPEN)
    /\ (clock_moves clock ->
        forall q r, In q (firstn seen order) ->
                    probe ports_data net host q = Ret r ->
                    status r = OPEN -> In r l).
Proof.
  intros Hpool order Hinside seen.
  destruct (scan_run ports_data net clock host sched [S n] start_port
              end_port threads w Hpool) as (_ & _ & Hsingle & _).
  specialize (Hsingle n eq_refl Hinside).
  rewrite <- (as_completed_length sched) in Hsingle.
  fold order in Hsingle. fold seen in Hsingle.
  eexists. split; [exact Hsingle|].
  split.
  { eapply picked_sorted, collected_picked. }
  split.
  - intros r Hr.
    eapply Permutation_in in Hr; [|apply sorted_by_port_Permutation].
    now apply (loop_results_In ports_data net clock host) in Hr.
  - intros Hmoves q r Hq Hprobe Hst.
    eapply Permutation_in; [symmetry; apply sorted_by_port_Permutation|].
    unfold order. rewrite collected_complete by assumption.
    apply open_result_In. eauto.
Qed.

(** C8.  The progress lines a scan prints show strictly increasing
    completed-counts, each a positive multiple of 1000 and at most the
    number K of ports of the range, which is also the total they show. *)
Theorem scan_progress_monotone (sched signals : list nat)
    (start_port end_port threads : Z) (w : world) :
  exists lines,
    stdout (snd (PortScanner.scan ports_data net clock sched signals host
                   start_port end_port threads w))
    = (stdout w ++ lines)%list
    /\ StronglySorted Z.lt (map fst (progress_lines lines))
    /\ Forall (fun l => 0 < fst l <= end_port - start_port + 1
                        /\ snd l = end_port - start_port + 1
                        /\ fst l <= Z.of_nat (List.length
                                               (range start_port (end_port + 1))))
         (progress_lines lines).
Proof.
  destruct (Z.lt_ge_cases 0 threads) as [Hpool | Hnopool].
  - destruct (scan_run ports_data net clock host sched signals start_port
                end_port threads w Hpool)
      as (_ & _ & _ & _ & (lines & Hout & Hsorted & Hall) & _).
    exists lines. split; [assumption|]. split; [assumption|].
    eapply Forall_impl; [|exact Hall]. cbn beta.
    rewrite as_completed_length, range_length. intros l. lia.
  - destruct (scan_without_pool ports_data net clock host sched signals
                start_port end_port threads w Hnopool)
      as (_ & _ & _ & _ & [Hout | Hout]).
    + exists []. rewrite app_nil_r. repeat constructor. exact Hout.
    + exists [ScanInterrupted]. repeat constructor. exact Hout.
Qed.

(** C10, amended.  With a pool that can be created ([threads >= 1]), a
    scan whose [start_port] is greater than its [end_port] submits no
    task and opens no socket, and it returns the empty list: always when
    no signal arrives or a single one arrives inside the [try] block, and
    otherwise unless it is left by KeyboardInterrupt. *)
Theorem scan_empty_range (sched signals : list nat)
    (start_port end_port threads : Z) (w : world) :
  0 < threads ->
  end_port < start_port ->
  let run := PortScanner.scan ports_data net clock sched signals host
               start_port end_port threads w in
  (fst run = Ret [] \/ fst run = Interrupt)
  /\ (signals = [] \/ signals = [1%nat] \/ signals = [2%nat] ->
      fst run = Ret [])
  /\ submitted (snd run) = submitted w
  /\ next_sock (snd run) = next_sock w.
Proof.
  intros Hpool Hempty. cbn zeta.
  unfold PortScanner.scan, try_except_interrupt, PortScanner.with_executor.
  rewrite range_empty by lia.
  assert (Hle : (threads <=? 0) = false) by lia.
  destruct signals as [|[|[|[|[|n]]]] [|[|[|d]] later]]; cbn; rewrite ?Hle; cbn;
    (split; [auto|]);
    (split; [try (intros _; reflexivity);
             intros [[=] | [[=] | [=]]]; reflexivity|]);
    auto.
Qed.

(** The only check [scan] makes on its request is the pool size. *)
Lemma scan_validation (sched signals : list nat)
    (start_port end_port threads : Z) (w : world) :
  (threads <= 0 ->
   match signals with
   | [] => True
   | n :: _ => (2 <= n)%nat
   end ->
   PortScanner.scan ports_data net clock sched signals host
     start_port end_port threads w = (Raise ValueError, w))
  /\ (0 < threads ->
      (exists l, fst (PortScanner.scan ports_data net clock sched [] host
                        start_port end_port threads w) = Ret l)
      /\ submitted (snd (PortScanner.scan ports_data net clock sched [] host
                           start_port end_port threads w))
         = (submitted w ++ range start_port (end_port + 1))%list).
Proof.
  split.
  - intros Hnopool Hsignal.
    destruct (scan_without_pool ports_data net clock host sched signals
                start_port end_port threads w Hnopool) as (_ & Hraise & _).
    now apply Hraise.
  - intros Hpool.
    destruct (scan_run ports_data net clock host sched [] start_port end_port
                threads w Hpool) as (_ & Hquiet & _ & Hsub & _).
    destruct (Hquiet eq_refl) as [Hret _].
    rewrite firstn_all in Hsub. eauto.
Qed.

End Report.

(** *** Sample scans *)

Lemma steady_moves : clock_moves Samples.steady.
Proof. intros k Hk. unfold Samples.steady. lia. Qed.

(** Ports 79 to 81 with the signal after 15 delivery points (the entry,
    the pool, three submits, five each for 79 and 80): the futures of 79
    and 80 have been handled, that of 81 has not. *)
Lemma scan_interrupted_witness :
  exists l,
    fst (PortScanner.scan Samples.catalog Samples.lan Samples.steady []
           [15%nat] "scanme" 79 81 4 idle) = Ret l
    /\ In Samples.http l.
Proof.
  assert (Hpool : 0 < 4) by lia.
  assert (Hinside :
    (14 < try_points Samples.catalog Samples.lan "scanme"
            (as_completed [] (range 79 (81 + 1))))%nat)
    by (vm_compute; lia).
  destruct (scan_interrupted_returns_collected Samples.catalog Samples.lan
              Samples.steady "scanme" [] 14 79 81 4 idle Hpool Hinside)
    as (l & Hret & _ & _ & Hall).
  exists l. split; [exact Hret|].
  apply (Hall steady_moves 80 Samples.http);
    [vm_compute; tauto | reflexivity | reflexivity].
Defined.

(** C5 as stated fails for a signal that arrives outside the [try]
    block: delivered at the [return], after the probes of 79 to 81 have
    all been handled and port 80 has been found open, it leaves [scan] as
    KeyboardInterrupt, and [main] ends without a report. *)
Lemma scan_interrupt_escapes :
  (let run := PortScanner.scan Samples.catalog Samples.lan Samples.steady []
                [21%nat] "scanme" 79 81 4 idle in
   fst run = Interrupt
   /\ stdout (snd run) = [FoundOpenPort 80 (JStr "HTTP")])
  /\ (let run :=
        Cli.main Samples.int_of_decimal (fun _ => true)
          (inr (JObj [("ports", Samples.catalog)])) Samples.lan Samples.steady
          [] [21%nat]
          {| Cli.host := "scanme"; Cli.ports := "79-81"; Cli.threads := 4;
             Cli.output := None |} idle in
      stdout (snd run)
      = [LoadedEntries 5; StartingScan "scanme";
         FoundOpenPort 80 (JStr "HTTP"); MainInterrupted]).
Proof. vm_compute. repeat split. Qed.

(** A second signal, delivered while the handler of the first prints,
    leaves [scan] as KeyboardInterrupt too; one delivered while the pool
    is shut down leaves the tasks that have not run in the queue. *)
Example scan_interrupted_twice :
  fst (PortScanner.scan Samples.catalog Samples.lan Samples.steady []
         [15%nat; 1%nat] "scanme" 79 81 4 idle) = Interrupt
  /\ (let run := PortScanner.scan Samples.catalog Samples.lan Samples.steady []
                   [6%nat; 0%nat] "scanme" 78 83 4 idle in
      fst run = Ret [] /\ submitted (snd run) = [78; 79; 80; 81]
      /\ pool (snd run) = [78; 79; 80; 81]).
Proof. vm_compute. repeat split. Qed.

(** C6.  The partial-failure policy fails when a progress report fails.
    On a network where port 1 has no socket and every other port accepts,
    with a clock that stands still, the scan of ports 1 to 1001 reports
    the probe of port 1, which raised, and then the probe of port 1001,
    which returned an OPEN result: that result is the thousandth to be
    counted, its progress report divides by an elapsed time of zero, and
    the ZeroDivisionError is caught in its place.  The list that is
    returned holds the ports 2 to 1000 and not port 1001. *)
Theorem scan_drops_result_when_clock_stands_still :
  let run := PortScanner.scan (JObj []) Samples.harbour Samples.frozen [] []
               "scanme" 1 1001 16 idle in
  probe (JObj []) Samples.harbour "scanme" 1 = Raise OSError
  /\ probe (JObj []) Samples.harbour "scanme" 1001
     = Ret {| port := 1001; status := OPEN; service := JStr "Unknown" |}
  /\ (exists l, fst run = Ret l
                /\ map port l = range 2 1001
                /\ ~ In 1001 (map port l))
  /\ filter (fun m => match m with
                      | ErrorScanning _ _ => true
                      | _ => false
                      end) (stdout (snd run))
     = [ErrorScanning 1 OSError; ErrorScanning 1001 ZeroDivisionError].
Proof.
  cbn zeta. split; [reflexivity|]. split; [reflexivity|].
  split; [|vm_compute; reflexivity].
  eexists. split; [vm_compute; reflexivity|].
  split; [vm_compute; reflexivity|].
  intros Hin.
  assert (Hfound : existsb (Z.eqb 1001)
                     (map port
                        (PortScanner.sorted_by_port
                           (loop_results (JObj []) Samples.harbour
                              Samples.frozen "scanme" 0 1001 0 1
                              (range 1 1002))))
                   = true).
  { apply existsb_exists. exists 1001. split; [|apply Z.eqb_refl].
    revert Hin. vm_compute. exact (fun H => H). }
  vm_compute in Hfound. discriminate.
Qed.

(** A scan of 2500 ports prints two progress lines. *)
Example scan_progress_sample :
  progress_lines
    (stdout (snd (PortScanner.scan Samples.catalog Samples.lan Samples.steady
                    [7; 3; 11]%nat [] "scanme" 1 2500 16 idle)))
  = [(1000, 2500); (2000, 2500)].
Proof. vm_compute. reflexivity. Qed.

Lemma scan_empty_range_witness :
  fst (PortScanner.scan Samples.catalog Samples.lan Samples.steady [] []
         "scanme" 1024 1 16 idle) = Ret [].
Proof.
  apply (scan_empty_range Samples.catalog Samples.lan Samples.steady "scanme");
    [lia | lia | now left].
Defined.

(** C10 as stated fails when the pool size is not positive: the scan of
    the empty range 5..3 with [threads = 0] raises ValueError.  With a
    pool of 16, the same scan is left by KeyboardInterrupt when a signal
    arrives before the [try] block is entered, or at the [return]. *)
Lemma scan_empty_range_raises :
  fst (PortScanner.scan Samples.catalog Samples.lan Samples.steady [] []
         "scanme" 5 3 0 idle) = Raise ValueError
  /\ fst (PortScanner.scan Samples.catalog Samples.lan Samples.steady []
            [0%nat] "scanme" 5 3 16 idle) = Interrupt
  /\ fst (PortScanner.scan Samples.catalog Samples.lan Samples.steady []
            [3%nat] "scanme" 5 3 16 idle) = Interrupt.
Proof. repeat split. Qed.

(** ** The command line *)

(** C3, amended.  What is refused before any probe is submitted: a port
    range that is not two integers around one "-" ([main] raises
    ValueError), and a pool size below 1 ([scan] raises ValueError, unless
    a signal arrives before the pool is created).  The bounds of the
    range are not checked: with a pool, an uninterrupted scan submits one
    probe for each port of [range(start_port, end_port + 1)], whatever the
    bounds are, and returns a list. *)
Theorem request_validation (int_of_str : string -> option Z)
    (can_write : string -> bool) (ports_file : exn + json)
    (ports_data : json) (net : network) (clock : nat -> Z)
    (sched signals : list nat) (a : Cli.args) (host : string)
    (start_port end_port threads : Z) (w : world) :
  (Cli.parse_ports int_of_str (Cli.ports a) = Raise ValueError ->
     Cli.main int_of_str can_write ports_file net clock sched signals a w
     = (Raise ValueError, w))
  /\ (threads <= 0 ->
      match signals with
      | [] => True
      | n :: _ => (2 <= n)%nat
      end ->
      PortScanner.scan ports_data net clock sched signals host
        start_port end_port threads w = (Raise ValueError, w))
  /\ (0 < threads ->
      (exists l, fst (PortScanner.scan ports_data net clock sched [] host
                        start_port end_port threads w) = Ret l)
      /\ submitted (snd (PortScanner.scan ports_data net clock sched [] host
                           start_port end_port threads w))
         = (submitted w ++ range start_port (end_port + 1))%list).
Proof.
  split; [|apply scan_validation].
  intros Hparse. unfold Cli.main. cbn. unfold eval. now rewrite Hparse.
Qed.

(** C3 as stated fails on requests outside [1 <= start_port <= end_port <=
    65535]: the scan of port 0 submits a probe and returns, and so does
    the command line "70000-70000", where the probe raises OverflowError
    and [main] ends by reporting that no port is open. *)
Lemma invalid_range_is_scanned :
  (let run := PortScanner.scan Samples.catalog Samples.lan Samples.steady []
                [] "scanme" 0 0 16 idle in
   fst run = Ret [] /\ submitted (snd run) = [0])
  /\ (let run :=
        Cli.main Samples.int_of_decimal (fun _ => true)
          (inr (JObj [("ports", Samples.catalog)])) Samples.lan Samples.steady
          [] []
          {| Cli.host := "scanme"; Cli.ports := "70000-70000";
             Cli.threads := 16; Cli.output := None |} idle in
      fst run = Ret tt /\ submitted (snd run) = [70000]
      /\ stdout (snd run)
         = [LoadedEntries 5; StartingScan "scanme";
            ErrorScanning 70000 OverflowError; NoOpenPortsFound]).
Proof. repeat split. Qed.

Section Console.

Variable can_write : string -> bool.

Lemma print_ports_run (results : list probe_result) :
  forall w : world,
  Cli.print_ports results w
  = (Ret tt,
     {| stdout := stdout w
                  ++ map (fun r => PortLine (port r) (service r)) results;
        open_socks := open_socks w; next_sock := next_sock w;
        submitted := submitted w; pool := pool w; files := files w |}).
Proof.
  induction results as [|r rest IH]; intros w.
  - cbn. rewrite app_nil_r. now destruct w.
  - run. rewrite IH. cbn. now rewrite <- app_assoc.
Qed.

Lemma report_results_not_interrupted (a : Cli.args)
    (results : list probe_result) (w : world) :
  fst (Cli.report_results can_write a results w) <> Interrupt.
Proof.
  unfold Cli.report_results, Cli.write_report.
  destruct results as [|r rest]; [discriminate|].
  destruct (Cli.given (Cli.output a)) as [path|].
  - destruct (Cli.endswith path ".html"); destruct (can_write path); run;
      rewrite ?print_ports_run; discriminate.
  - run. rewrite print_ports_run. discriminate.
Qed.

(** [main] once the port range is parsed: load the catalog, announce the
    scan, scan, and report what the scan returned. *)
Lemma main_after_parse (int_of_str : string -> option Z)
    (ports_file : exn + json) (net : network) (clock : nat -> Z)
    (sched signals : list nat) (a : Cli.args) (start_port end_port : Z)
    (w : world) :
  Cli.parse_ports int_of_str (Cli.ports a) = Ret (start_port, end_port) ->
  Cli.main int_of_str can_write ports_file net clock sched signals a w
  = let '(loaded, w1) := PortScanner.init ports_file w in
    match loaded with
    | Ret ports_data =>
        let w2 := snd (print (StartingScan (Cli.host a)) w1) in
        match PortScanner.scan ports_data net clock sched signals (Cli.host a)
                start_port end_port (Cli.threads a) w2 with
        | (Ret results, w3) => Cli.report_results can_write a results w3
        | (Raise e, w3) => (Raise e, w3)
        | (Interrupt, w3) => print MainInterrupted w3
        end
    | Raise e => (Raise e, w1)
    | Interrupt => (Interrupt, w1)
    end.
Proof.
  intros Hparse. unfold Cli.main, eval, try_except_interrupt.
  cbn -[PortScanner.init PortScanner.scan Cli.report_results print].
  rewrite Hparse.
  cbn -[PortScanner.init PortScanner.scan Cli.report_results print].
  destruct (PortScanner.init ports_file w) as [[ports_data|e|] w1];
    try reflexivity.
  cbn -[PortScanner.init PortScanner.scan Cli.report_results].
  destruct (PortScanner.scan _ _ _ _ _ _ _ _ _ _) as [[results|e|] w3];
    try reflexivity.
  pose proof (report_results_not_interrupted a results w3) as Hreport.
  destruct (Cli.report_results can_write a results w3) as [[[]|e|] w4];
    cbn in *; congruence.
Qed.

(** C9, amended.  After a scan that found nothing the console gets the
    line "No open ports found" (and no file is written).  After a scan
    that found open ports it gets the header line "Open ports:", which
    shows no count, followed by one line "Port <n>: <service>" per open
    port, in the order of the results; when a file target is given and
    can be written, the line "Results written to <path>" comes before
    the header. *)
Theorem console_report (a : Cli.args) (results : list probe_result)
    (w : world) :
  let run := Cli.report_results can_write a results w in
  let port_lines := map (fun r => PortLine (port r) (service r)) results in
  match results with
  | [] => run = (Ret tt, snd (print NoOpenPortsFound w))
  | _ :: _ =>
      match Cli.given (Cli.output a) with
      | None =>
          fst run = Ret tt
          /\ stdout (snd run) = (stdout w ++ OpenPortsHeader :: port_lines)%list
      | Some path =>
          can_write path = true ->
          fst run = Ret tt
          /\ stdout (snd run)
             = (stdout w
                ++ ResultsWritten path :: OpenPortsHeader :: port_lines)%list
      end
  end
  /\ Cli.text NoOpenPortsFound = Some "No open ports found"
  /\ Cli.text OpenPortsHeader = Some (Cli.newline ++ "Open ports:")%string
  /\ (forall p label,
        Cli.text (PortLine p (JStr label))
        = Some ("Port " ++ str p ++ ": " ++ label)%string).
Proof.
  cbn zeta. split; [|repeat split].
  destruct results as [|r rest]; [reflexivity|].
  unfold Cli.report_results.
  destruct (Cli.given (Cli.output a)) as [path|].
  - intros Hwrite. unfold Cli.write_report. rewrite Hwrite.
    destruct (Cli.endswith path ".html"); run; rewrite print_ports_run;
      cbn; rewrite <- !app_assoc; auto.
  - run. rewrite print_ports_run. cbn. rewrite <- !app_assoc. auto.
Qed.

End Console.

(** C9 as stated fails on the count: after a scan that found port 80 the
    console gets the header and the port line, and no line shows the
    number of open ports, 1. *)
Lemma console_report_shows_no_count :
  let w := snd (Cli.main Samples.int_of_decimal (fun _ => true)
                  (inr (JObj [("ports", Samples.catalog)])) Samples.lan
                  Samples.steady [] []
                  {| Cli.host := "scanme"; Cli.ports := "80-80";
                     Cli.threads := 16; Cli.output := None |} idle) in
  stdout w
  = [LoadedEntries 5; StartingScan "scanme"; FoundOpenPort 80 (JStr "HTTP");
     OpenPortsHeader; PortLine 80 (JStr "HTTP")]
  /\ map Cli.text (stdout w)
     = [Some "Loaded 5 port entries"; None;
        Some "Found open port 80: HTTP";
        Some (Cli.newline ++ "Open ports:")%string; Some "Port 80: HTTP"]
  /\ forall line, In (Some line) (map Cli.text (stdout w)) ->
                  str_contains (str 1) line = false.
Proof.
  cbn zeta. split; [reflexivity|]. split; [reflexivity|].
  intros line [[= <-] | [[=] | [[= <-] | [[= <-] | [[= <-] | []]]]]];
    reflexivity.
Qed.

(** When the report file cannot be written, [main] is left with OSError
    before the console lines are printed. *)
Example console_report_lost_on_write_error :
  Cli.report_results (fun _ => false)
    {| Cli.host := "scanme"; Cli.ports := "1-1000"; Cli.threads := 16;
       Cli.output := Some "report.txt" |}
    [Samples.http] idle
  = (Raise OSError, idle).
Proof. reflexivity. Qed.


(** * Further properties of the code *)

(** ** The catalog *)

(** X1.  A lookup that hits: for a port whose entry is a record with a
    "description", or a sequence whose first record has one, [get_service]
    returns that description; later records of the sequence are ignored. *)
Theorem get_service_description (fields record : list (string * json))
    (others : list json) (p : Z) (d : json) :
  dict_get (str p) fields = Some (JObj record)
  \/ dict_get (str p) fields = Some (JArr (JObj record :: others)) ->
  dict_get "description" record = Some d ->
  PortScanner.get_service (JObj fields) p = Ret d.
Proof.
  intros [Hentry | Hentry] Hd; unfold PortScanner.get_service; cbn;
    rewrite Hentry; cbn; rewrite Hd; reflexivity.
Qed.

Lemma get_service_description_witness :
  PortScanner.get_service Samples.catalog 80 = Ret (JStr "HTTP")
  /\ PortScanner.get_service Samples.catalog 443 = Ret (JStr "HTTPS").
Proof.
  split.
  - apply (get_service_description _ [("description", JStr "HTTP")] [] 80);
      [left|]; reflexivity.
  - apply (get_service_description _ [("description", JStr "HTTPS")] [] 443);
      [right|]; reflexivity.
Defined.

(** X2.  How the lookup fails.  [get_service] raises nothing but
    AttributeError or TypeError (KeyError and IndexError never leave it);
    on a catalog that is a dict it raises exactly when the port has an
    entry that is not readable (neither a record, nor an empty sequence,
    nor a sequence that starts with a record), and then it raises
    AttributeError. *)
Theorem get_service_raises (p : Z) :
  (forall ports_data e,
     PortScanner.get_service ports_data p = Raise e ->
     e = AttributeError \/ e = TypeError)
  /\ (forall fields e,
       PortScanner.get_service (JObj fields) p = Raise e <->
       e = AttributeError
       /\ exists v, dict_get (str p) fields = Some v /\ readable v = false).
Proof.
  assert (Hdict : forall fields e,
            PortScanner.get_service (JObj fields) p = Raise e <->
            e = AttributeError
            /\ exists v, dict_get (str p) fields = Some v
                         /\ readable v = false).
  { intros fields e. unfold PortScanner.get_service. cbn.
    destruct (dict_get (str p) fields) as [v|]; cbn.
    - destruct v as [| | | |items|record]; cbn;
        try (split; [intros [= <-]; eauto | intros [-> _]; reflexivity]).
      + destruct items as [|x rest]; cbn.
        * split; [discriminate | intros (_ & v & [= <-] & Hv); discriminate].
        * destruct x as [| | | | |first]; cbn;
            try (split; [intros [= <-]; eauto | intros [-> _]; reflexivity]).
          destruct (dict_get "description" first);
            (split; [discriminate
                    | intros (_ & v & [= <-] & Hv); discriminate]).
      + destruct (dict_get "description" record);
          (split; [discriminate | intros (_ & v & [= <-] & Hv); discriminate]).
    - split; [discriminate | intros (_ & v & Hv & _); discriminate]. }
  split; [|exact Hdict].
  intros ports_data e Hraise.
  destruct ports_data as [| | |s|items|fields];
    try (cbn in Hraise; injection Hraise as <-; now right).
  - unfold PortScanner.get_service in Hraise. cbn in Hraise.
    destruct (str_contains (str p) s); cbn in Hraise;
      [injection Hraise as <-; now right | discriminate].
  - unfold PortScanner.get_service in Hraise. cbn in Hraise.
    destruct (existsb (str_equals (str p)) items); cbn in Hraise;
      [injection Hraise as <-; now right | discriminate].
  - apply Hdict in Hraise as [-> _]. now left.
Qed.

(** X3.  [__init__] never fails and prints exactly one line: either the
    catalog file gave a document whose "ports" value has a length, which
    becomes the catalog and whose length is printed, or the catalog is the
    empty dict and the line is the warning with the exception. *)
Theorem init_loads_or_degrades (ports_file : exn + json) (w : world) :
  exists ports_data line,
    PortScanner.init ports_file w = (Ret ports_data, snd (print line w))
    /\ ((exists data n,
           ports_file = inr data /\ getitem data "ports" = Ret ports_data
           /\ len ports_data = Ret n /\ line = LoadedEntries n)
        \/ (exists e, ports_data = JObj [] /\ line = CouldNotLoad e
                      /\ (ports_file = inl e
                          \/ (exists data,
                                ports_file = inr data
                                /\ (getitem data "ports" = Raise e
                                    \/ exists v, getitem data "ports" = Ret v
                                                 /\ len v = Raise e))))).
Proof.
  assert (Hget : forall data, getitem data "ports" <> Interrupt).
  { intros [| | | | |fields]; cbn; try discriminate.
    destruct (dict_get "ports" fields); discriminate. }
  assert (Hlen : forall v, len v <> Interrupt).
  { intros [| | | | |]; discriminate. }
  unfold PortScanner.init, try_except, eval. cbn.
  destruct ports_file as [e|data]; cbn.
  - exists (JObj []), (CouldNotLoad e). split; [reflexivity|].
    right. exists e. auto.
  - specialize (Hget data).
    destruct (getitem data "ports") as [v|e|] eqn:Hports; cbn;
      [ | | congruence].
    + specialize (Hlen v).
      destruct (len v) as [n|e|] eqn:Hn; cbn; [ | | congruence].
      * exists v, (LoadedEntries n). split; [reflexivity|].
        left. exists data, n. auto.
      * exists (JObj []), (CouldNotLoad e). split; [reflexivity|].
        right. exists e. split; [reflexivity|]. split; [reflexivity|].
        right. exists data. split; [reflexivity|]. right. eauto.
    + exists (JObj []), (CouldNotLoad e). split; [reflexivity|].
      right. exists e. split; [reflexivity|]. split; [reflexivity|].
      right. exists data. auto.
Qed.

(** X4.  Loading and looking up compose: when the catalog file cannot be
    read or decoded, the scanner still answers every lookup, with
    "Unknown"; when the document holds a dict under "ports" in which the
    port has a record with a "description", the lookup after loading gives
    that description. *)
Theorem lookup_after_init (w : world) (p : Z) :
  (forall e, exists ports_data,
     fst (PortScanner.init (inl e) w) = Ret ports_data
     /\ PortScanner.get_service ports_data p = Ret (JStr "Unknown"))
  /\ (forall document fields record d,
       dict_get "ports" document = Some (JObj fields) ->
       dict_get (str p) fields = Some (JObj record) ->
       dict_get "description" record = Some d ->
       exists ports_data,
         fst (PortScanner.init (inr (JObj document)) w) = Ret ports_data
         /\ PortScanner.get_service ports_data p = Ret d).
Proof.
  split.
  - intros e. exists (JObj []). split; reflexivity.
  - intros document fields record d Hports Hentry Hd. exists (JObj fields).
    split.
    + unfold PortScanner.init, try_except, eval. cbn. rewrite Hports.
      reflexivity.
    + unfold PortScanner.get_service. cbn. rewrite Hentry. cbn.
      now rewrite Hd.
Qed.

(** ** More on a single probe *)

Section ProbeEffects.

Variable ports_data : json.
Variable net : network.
Variable host : string.

(** Case analysis on the attempt, the errno and the lookup. *)
Ltac attempt_cases p :=
  unfold probe, PortScanner.check_port; run;
  destruct (net host p) as [|code|e0] eqn:Hnet; run;
  [ | destruct (Z.eqb_spec code 0) as [Hcode|Hcode]; run
    | destruct (is_socket_error e0) eqn:Hsock; run ];
  try (pose proof (get_service_not_interrupted ports_data p);
       destruct (PortScanner.get_service ports_data p) as [label|e'|]
         eqn:Hlabel;
       run; [ | try (destruct (is_socket_error e') eqn:Hsock'; run)
              | congruence ]).

(** X5.  What a probe prints: the line "Found open port" with the port
    and its label when, and only when, [check_port] returns an OPEN result;
    a CLOSED result or an exception leaves the console as it was. *)
Theorem check_port_console (p : Z) (w : world) :
  let run := PortScanner.check_port ports_data net host p w in
  stdout (snd run) = (stdout w ++ found_line p (fst run))%list.
Proof.
  attempt_cases p; rewrite ?app_nil_r; reflexivity.
Qed.

(** X6.  When [check_port] raises, and what: OSError when no socket can
    be created; the exception of [connect_ex] when it is not a socket
    error (a port outside 0..65535 gives OverflowError); the exception of
    the catalog lookup otherwise.  In no other case does it raise. *)
Theorem check_port_raises (p : Z) (w : world) (e : exn) :
  fst (PortScanner.check_port ports_data net host p w) = Raise e <->
  (net host p = SocketFails /\ e = OSError)
  \/ (net host p = ConnectRaises e /\ is_socket_error e = false)
  \/ (((exists code, net host p = ConnectReturns code)
       \/ (exists e', net host p = ConnectRaises e'
                      /\ is_socket_error e' = true))
      /\ PortScanner.get_service ports_data p = Raise e).
Proof.
  attempt_cases p; split;
    try (intros [= <-]); try discriminate; eauto 8;
    intros [[? ?] | [[? ?] | [[[? ?] | (? & ? & ?)] ?]]];
    try congruence.
Qed.

End ProbeEffects.

(** ** More on the scan *)

(** Sorting by a key that no two elements share forgets the order the
    elements came in. *)
Lemma NoDup_map_injective (l : list probe_result) (a b : probe_result) :
  NoDup (map port l) -> In a l -> In b l -> port a = port b -> a = b.
Proof.
  induction l as [|x rest IH]; cbn; [contradiction|].
  intros Hnodup Ha Hb Hport. inversion Hnodup as [|? ? Hnotin Hrest]; subst.
  destruct Ha as [<- | Ha], Hb as [<- | Hb]; auto.
  - elim Hnotin. rewrite Hport. now apply in_map.
  - elim Hnotin. rewrite <- Hport. now apply in_map.
Qed.

Lemma sorted_unique (l1 : list probe_result) :
  forall l2,
  StronglySorted (fun a b => port a <= port b) l1 ->
  StronglySorted (fun a b => port a <= port b) l2 ->
  NoDup (map port l1) ->
  Permutation l1 l2 -> l1 = l2.
Proof.
  induction l1 as [|x t1 IH]; intros l2 Hs1 Hs2 Hnodup Hperm.
  - now apply Permutation_nil in Hperm.
  - destruct l2 as [|y t2];
      [apply Permutation_sym, Permutation_nil in Hperm; discriminate|].
    assert (Hxy : x = y).
    { assert (Hx : In x (y :: t2))
        by (eapply Permutation_in; [exact Hperm | now left]).
      assert (Hy : In y (x :: t1))
        by (eapply Permutation_in; [symmetry; exact Hperm | now left]).
      destruct Hx as [-> | Hx]; [reflexivity|].
      destruct Hy as [-> | Hy]; [reflexivity|].
      inversion Hs1 as [|? ? _ Hle1]; inversion Hs2 as [|? ? _ Hle2]; subst.
      rewrite Forall_forall in Hle1, Hle2.
      specialize (Hle1 y Hy). specialize (Hle2 x Hx).
      apply (NoDup_map_injective (x :: t1)); auto; [now left | now right | lia]. }
    subst y. f_equal.
    inversion Hs1; inversion Hs2; inversion Hnodup; subst.
    apply IH; auto. now apply Permutation_cons_inv in Hperm.
Qed.

Section ScanMore.

Variable ports_data : json.
Variable net : network.
Variable clock : nat -> Z.
Variable host : string.

(** The OPEN results of the probes of distinct ports. *)
Lemma open_results_picked (order : list Z) :
  NoDup order ->
  picked ports_data net host order
    (flat_map (open_result ports_data net host) order).
Proof.
  intros Hnodup.
  rewrite <- (loop_results_complete ports_data net (fun _ => 1) host 0 1
                order 0 O) by reflexivity.
  now apply loop_results_picked.
Qed.

(** The report of an uninterrupted scan when the clock moves. *)
Lemma scan_complete (sched : list nat) (start_port end_port threads : Z)
    (w : world) :
  0 < threads ->
  clock_moves clock ->
  fst (PortScanner.scan ports_data net clock sched [] host
         start_port end_port threads w)
  = Ret (PortScanner.sorted_by_port
           (flat_map (open_result ports_data net host)
              (as_completed sched (range start_port (end_port + 1))))).
Proof.
  intros Hpool Hmoves.
  destruct (scan_run ports_data net clock host sched [] start_port end_port
              threads w Hpool) as (_ & Hquiet & _).
  destruct (Hquiet eq_refl) as [-> _].
  rewrite collected_complete by assumption. now rewrite firstn_all.
Qed.

(** X7.  When the clock moves, so that no progress report fails, the
    report of an uninterrupted scan is the same whatever the order in
    which the probes complete. *)
Theorem scan_report_deterministic (sched sched' : list nat)
    (start_port end_port threads : Z) (w : world) :
  0 < threads ->
  clock_moves clock ->
  fst (PortScanner.scan ports_data net clock sched [] host
         start_port end_port threads w)
  = fst (PortScanner.scan ports_data net clock sched' [] host
           start_port end_port threads w).
Proof.
  intros Hpool Hmoves. rewrite !scan_complete by assumption. f_equal.
  set (ports := range start_port (end_port + 1)).
  assert (Hperm : Permutation
            (flat_map (open_result ports_data net host)
               (as_completed sched ports))
            (flat_map (open_result ports_data net host)
               (as_completed sched' ports))).
  { apply Permutation_flat_map.
    eapply Permutation_trans; [apply as_completed_Permutation|].
    symmetry. apply as_completed_Permutation. }
  apply sorted_unique.
  - apply sorted_by_port_sorted.
  - apply sorted_by_port_sorted.
  - eapply picked_sorted, open_results_picked, as_completed_NoDup.
  - eapply Permutation_trans; [apply sorted_by_port_Permutation|].
    eapply Permutation_trans; [exact Hperm|].
    symmetry. apply sorted_by_port_Permutation.
Qed.

(** X17.  Probes that raise do not stop the scan and do not leave it as
    an exception: an uninterrupted [scan] returns a list of OPEN results
    of ports of the range, none of them for a port whose probe raised;
    and when the clock moves, so that no progress report fails, the list
    holds the OPEN result of every port of the range. *)
Theorem scan_survives_probe_errors (sched : list nat)
    (start_port end_port threads : Z) (w : world) :
  0 < threads ->
  exists l,
    fst (PortScanner.scan ports_data net clock sched [] host
           start_port end_port threads w) = Ret l
    /\ (forall r, In r l ->
          exists q, start_port <= q <= end_port
                    /\ probe ports_data net host q = Ret r
                    /\ status r = OPEN)
    /\ (forall q e, probe ports_data net host q = Raise e ->
          ~ In q (map port l))
    /\ (clock_moves clock ->
        forall q r, start_port <= q <= end_port ->
                    probe ports_data net host q = Ret r ->
                    status r = OPEN -> In r l).
Proof.
  intros Hpool.
  destruct (scan_run ports_data net clock host sched [] start_port end_port
              threads w Hpool) as (_ & Hquiet & _).
  destruct (Hquiet eq_refl) as [Hret _]. rewrite firstn_all in Hret.
  eexists. split; [exact Hret|].
  assert (Hin : forall r,
    In r (PortScanner.sorted_by_port
            (loop_results ports_data net clock host (clock O)
               (end_port - start_port + 1) 0 1
               (as_completed sched (range start_port (end_port + 1))))) ->
    exists q, start_port <= q <= end_port
              /\ probe ports_data net host q = Ret r
              /\ status r = OPEN).
  { intros r Hr.
    eapply Permutation_in in Hr; [|apply sorted_by_port_Permutation].
    apply (loop_results_In ports_data net clock host) in Hr
      as (q & Hq & Hprobe & Hst).
    eapply Permutation_in in Hq; [|apply as_completed_Permutation].
    apply range_In in Hq. exists q. split; [lia | auto]. }
  split; [exact Hin|]. split.
  - intros q e Hraise Hq. apply in_map_iff in Hq as (r & <- & Hr).
    apply Hin in Hr as (q & _ & Hprobe & _).
    rewrite (probe_port _ _ _ _ _ Hprobe) in Hraise. congruence.
  - intros Hmoves q r Hq Hprobe Hst.
    eapply Permutation_in; [symmetry; apply sorted_by_port_Permutation|].
    rewrite <- (firstn_all (as_completed sched _)).
    rewrite collected_complete by assumption. rewrite firstn_all.
    apply open_result_In. exists q. split; [|auto].
    eapply Permutation_in; [symmetry; apply as_completed_Permutation|].
    apply range_In. lia.
Qed.

End ScanMore.

Lemma scan_report_deterministic_witness :
  fst (PortScanner.scan Samples.catalog Samples.lan Samples.steady [] []
         "scanme" 78 83 16 idle)
  = fst (PortScanner.scan Samples.catalog Samples.lan Samples.steady
           [4; 1; 3; 0]%nat [] "scanme" 78 83 16 idle).
Proof.
  apply (scan_report_deterministic Samples.catalog Samples.lan Samples.steady
           "scanme"); [lia | exact steady_moves].
Defined.

(** Ports 78 to 83: the probe of 82 raises OSError, that of 80 is OPEN. *)
Lemma scan_survives_probe_errors_witness :
  exists l,
    fst (PortScanner.scan Samples.catalog Samples.lan Samples.steady
           [2; 0; 1]%nat [] "scanme" 78 83 4 idle) = Ret l
    /\ In Samples.http l
    /\ ~ In 82 (map port l).
Proof.
  assert (Hpool : 0 < 4) by lia.
  destruct (scan_survives_probe_errors Samples.catalog Samples.lan
              Samples.steady "scanme" [2; 0; 1]%nat 78 83 4 idle Hpool)
    as (l & Hret & _ & Hraised & Hall).
  exists l. split; [exact Hret|]. split.
  - apply (Hall steady_moves 80); [lia | reflexivity | reflexivity].
  - apply (Hraised 82 OSError). reflexivity.
Defined.

(** *** What the scan leaves behind *)

(** Relations on the world that every step of [scan] keeps. *)
Section Keeping.

Variable R : world -> world -> Prop.
Hypothesis R_refl : forall w, R w w.
Hypothesis R_trans : forall a b c, R a b -> R b c -> R a c.

Lemma keeps_ret (A : Type) (a : A) : keeps R (ret a).
Proof. intros f. apply R_refl. Qed.

Lemma keeps_raise (A : Type) (e : exn) : keeps R (@raise PortScanner.frame A e).
Proof. intros f. apply R_refl. Qed.

Lemma keeps_eval (A : Type) (o : outcome A) : keeps R (eval o).
Proof. intros f. apply R_refl. Qed.

Lemma keeps_gets (A : Type) (g : PortScanner.frame -> A) : keeps R (gets g).
Proof. intros f. apply R_refl. Qed.

Lemma keeps_tick : keeps R PortScanner.tick.
Proof.
  intros f. unfold PortScanner.tick.
  destruct (PortScanner.sigint f) as [|[|n] later]; apply R_refl.
Qed.

Lemma keeps_time_time (clock : nat -> Z) : keeps R (PortScanner.time_time clock).
Proof. intros f. apply R_refl. Qed.

Lemma keeps_modify (g : PortScanner.frame -> PortScanner.frame) :
  (forall f, PortScanner.sys (g f) = PortScanner.sys f) -> keeps R (modify g).
Proof. intros Hg f. cbn. rewrite Hg. apply R_refl. Qed.

Lemma keeps_bind (A B : Type) (c : M PortScanner.frame A)
    (k : A -> M PortScanner.frame B) :
  keeps R c -> (forall a, keeps R (k a)) -> keeps R (x <- c ;; k x).
Proof.
  intros Hc Hk f. rewrite bind_run. specialize (Hc f).
  destruct (c f) as [[a|e|] f1]; cbn [snd] in *; auto.
  eapply R_trans; [exact Hc | apply Hk].
Qed.

Lemma keeps_try_except (A : Type) (body : M PortScanner.frame A)
    (classes : exn -> bool) (handler : exn -> M PortScanner.frame A) :
  keeps R body -> (forall e, keeps R (handler e)) ->
  keeps R (try_except body classes handler).
Proof.
  intros Hbody Hhandler f. unfold try_except. specialize (Hbody f).
  destruct (body f) as [[a|e|] f1]; cbn [snd] in *; auto.
  destruct (classes e); auto.
  eapply R_trans; [exact Hbody | apply Hhandler].
Qed.

Lemma keeps_try_except_interrupt (A : Type) (body handler : M PortScanner.frame A) :
  keeps R body -> keeps R handler ->
  keeps R (try_except_interrupt body handler).
Proof.
  intros Hbody Hhandler f. unfold try_except_interrupt. specialize (Hbody f).
  destruct (body f) as [[a|e|] f1]; cbn [snd] in *; auto.
  eapply R_trans; [exact Hbody | apply Hhandler].
Qed.

Lemma keeps_try_finally (A : Type) (body : M PortScanner.frame A)
    (cleanup : M PortScanner.frame unit) :
  keeps R body -> keeps R cleanup -> keeps R (try_finally body cleanup).
Proof.
  intros Hbody Hcleanup f. unfold try_finally. specialize (Hbody f).
  destruct (body f) as [r f1]. specialize (Hcleanup f1).
  destruct (cleanup f1) as [[u|e|] f2]; cbn [snd] in *;
    eapply R_trans; eauto.
Qed.

Lemma keeps_in_world (A : Type) (c : M world A) :
  keeps_world R c -> keeps R (PortScanner.in_world c).
Proof.
  intros Hc f. unfold PortScanner.in_world. specialize (Hc (PortScanner.sys f)).
  now destruct (c (PortScanner.sys f)) as [r w].
Qed.

Variable ports_data : json.
Variable net : network.
Variable clock : nat -> Z.
Variable host : string.

Hypothesis R_print : forall m w, R w (snd (print m w)).
Hypothesis R_set_pool : forall a b w, R w (set_pool a b w).
Hypothesis R_probe :
  forall p w, R w (snd (PortScanner.check_port ports_data net host p w)).

Lemma keeps_run_task (p : Z) :
  keeps_world R (PortScanner.run_task ports_data net host p).
Proof.
  intros w. unfold PortScanner.run_task.
  pose proof (R_probe p (set_pool (submitted w) (remove_task p (pool w)) w))
    as Hprobe.
  destruct (PortScanner.check_port _ _ _ _ _) as [r w']. cbn [snd] in *.
  eapply R_trans; [apply R_set_pool | exact Hprobe].
Qed.

Lemma keeps_run_all (tasks : list Z) :
  keeps R (PortScanner.run_all ports_data net host tasks).
Proof.
  induction tasks as [|p rest IH]; [apply keeps_ret|].
  cbn [PortScanner.run_all].
  apply keeps_bind; [apply keeps_tick|]. intros _.
  apply keeps_bind; [apply keeps_in_world, keeps_run_task|]. intros _.
  exact IH.
Qed.

Lemma keeps_shutdown : keeps R (PortScanner.shutdown ports_data net host).
Proof.
  unfold PortScanner.shutdown.
  apply keeps_bind; [apply keeps_gets|]. intros waiting.
  apply keeps_run_all.
Qed.

Lemma keeps_submit_all (ports : list Z) : keeps R (PortScanner.submit_all ports).
Proof.
  induction ports as [|p rest IH]; [apply keeps_ret|].
  cbn [PortScanner.submit_all].
  apply keeps_bind; [apply keeps_tick|]. intros _.
  apply keeps_bind; [|intros _; exact IH].
  apply keeps_in_world. intros w. apply R_set_pool.
Qed.

Lemma keeps_handle_future (start total p : Z) :
  keeps R (PortScanner.handle_future ports_data net clock host start total p).
Proof.
  unfold PortScanner.handle_future.
  apply keeps_bind; [apply keeps_tick|]. intros _.
  apply keeps_bind; [apply keeps_in_world, keeps_run_task|]. intros done.
  apply keeps_try_except.
  - apply keeps_bind; [apply keeps_tick|]. intros _.
    apply keeps_bind; [apply keeps_eval|]. intros result.
    apply keeps_bind; [apply keeps_tick|]. intros _.
    apply keeps_bind; [now apply keeps_modify|]. intros _.
    apply keeps_bind; [apply keeps_tick|]. intros _.
    apply keeps_bind; [apply keeps_gets|]. intros n.
    apply keeps_bind.
    + destruct (n mod 1000 =? 0); [|apply keeps_ret].
      apply keeps_bind; [apply keeps_time_time|]. intros now.
      apply keeps_bind; [apply keeps_eval|]. intros _.
      apply keeps_bind; [apply keeps_eval|]. intros _.
      apply keeps_in_world. intros w. apply R_print.
    + intros _. apply keeps_bind; [apply keeps_tick|]. intros _.
      destruct (status result); [now apply keeps_modify | apply keeps_ret].
  - intros e. apply keeps_bind; [apply keeps_tick|]. intros _.
    apply keeps_in_world. intros w. apply R_print.
Qed.

Lemma keeps_handle_futures (start total : Z) (order : list Z) :
  keeps R (PortScanner.handle_futures ports_data net clock host start total
             order).
Proof.
  induction order as [|p rest IH]; [apply keeps_ret|].
  cbn [PortScanner.handle_futures].
  apply keeps_bind; [apply keeps_handle_future | intros _; exact IH].
Qed.

(** Every relation that printing, queueing and a single probe keep is
    kept by the whole of [scan], however it is left. *)
Lemma keeps_scan (sched signals : list nat)
    (start_port end_port threads : Z) :
  keeps_world R (PortScanner.scan ports_data net clock sched signals host
                   start_port end_port threads).
Proof.
  intros w. unfold PortScanner.scan. cbn zeta.
  match goal with
  | |- context [bind ?c ?k ?f] =>
      assert (Hkeeps : keeps R (bind c k));
      [ | specialize (Hkeeps f);
          destruct (bind c k f) as [[l|e|] f'];
          exact Hkeeps ]
  end.
  apply keeps_bind; [apply keeps_tick|]. intros _.
  apply keeps_bind; [apply keeps_time_time|]. intros start.
  apply keeps_bind.
  - apply keeps_try_except_interrupt.
    + unfold PortScanner.with_executor.
      apply keeps_bind; [apply keeps_tick|]. intros _.
      destruct (threads <=? 0); [apply keeps_raise|].
      apply keeps_bind;
        [apply keeps_in_world; intros w'; apply R_set_pool|]. intros _.
      apply keeps_try_finally; [|apply keeps_shutdown].
      apply keeps_bind; [apply keeps_submit_all|]. intros _.
      apply keeps_bind; [apply keeps_handle_futures|]. intros _.
      apply keeps_tick.
    + apply keeps_bind; [apply keeps_tick|]. intros _.
      apply keeps_in_world. intros w'. apply R_print.
  - intros _. apply keeps_bind; [apply keeps_tick|]. intros _.
    apply keeps_bind; [apply keeps_gets|]. intros collected.
    apply keeps_ret.
Qed.

End Keeping.

Section Behind.

Variable ports_data : json.
Variable net : network.
Variable clock : nat -> Z.
Variable host : string.

Lemma settled_refl (w : world) : settled w w.
Proof. split; [apply incl_refl | reflexivity]. Qed.

Lemma settled_trans (a b c : world) : settled a b -> settled b c -> settled a c.
Proof.
  intros [Hab Fab] [Hbc Fbc]. split; [|congruence].
  eapply incl_tran; eassumption.
Qed.

Lemma check_port_settled (p : Z) (w : world) :
  settled w (snd (PortScanner.check_port ports_data net host p w)).
Proof.
  assert (Hsub : forall (l : list nat),
            incl (filter (fun s => negb (Nat.eqb s (next_sock w))) l) l)
    by (intros l s Hin; now apply filter_In in Hin).
  unfold settled, PortScanner.check_port; run.
  destruct (net host p) as [|code|e]; run;
    [ | destruct (code =? 0); run | destruct (is_socket_error e); run ];
    try (destruct (PortScanner.get_service ports_data p) as [label|e'|];
         run; try (destruct (is_socket_error e'); run));
    rewrite ?Nat.eqb_refl; cbn;
    (split; [|reflexivity]);
    first [ apply incl_refl | apply Hsub
          | eapply incl_tran; [apply Hsub | apply Hsub] ].
Qed.

(** X8.  What a scan leaves behind when at most one signal arrives,
    however it is left (a list, a ValueError, a KeyboardInterrupt) and
    whatever the scheduler and the clock: no socket is open that was not
    open before the call, no file has been written, and no submitted task
    is still waiting in the pool (every one of them has run, also after
    the interrupt). *)
Theorem scan_leaves_nothing_behind (sched signals : list nat)
    (start_port end_port threads : Z) (w : world) :
  (List.length signals <= 1)%nat ->
  let w' := snd (PortScanner.scan ports_data net clock sched signals host
                   start_port end_port threads w) in
  incl (open_socks w') (open_socks w)
  /\ files w' = files w
  /\ (pool w = [] -> pool w' = []).
Proof.
  intros Hone. cbn zeta.
  assert (Hsettled : settled w
            (snd (PortScanner.scan ports_data net clock sched signals host
                    start_port end_port threads w))).
  { apply (keeps_scan settled settled_refl settled_trans ports_data net clock
             host).
    - intros m w0. split; [apply incl_refl | reflexivity].
    - intros a b w0. split; [apply incl_refl | reflexivity].
    - apply check_port_settled. }
  destruct Hsettled as [Hsocks Hfiles].
  split; [assumption|]. split; [assumption|].
  destruct (Z.lt_ge_cases 0 threads) as [Hpool | Hnopool].
  - destruct (scan_run ports_data net clock host sched signals start_port
                end_port threads w Hpool) as (_ & _ & _ & _ & _ & Hdrained).
    now apply Hdrained.
  - destruct (scan_without_pool ports_data net clock host sched signals
                start_port end_port threads w Hnopool)
      as (_ & _ & _ & Hsame & _).
    intros Hempty. now rewrite Hsame.
Qed.

End Behind.

(** The signal arrives while the future of port 81 is handled: the tasks
    have all run and every socket is closed when [scan] returns. *)
Lemma scan_leaves_nothing_behind_witness :
  let w' := snd (PortScanner.scan Samples.catalog Samples.lan Samples.steady
                   [] [16%nat] "scanme" 79 81 4 idle) in
  open_socks w' = [] /\ files w' = [] /\ pool w' = [].
Proof.
  assert (Hone : (List.length [16%nat] <= 1)%nat) by (cbn; lia).
  destruct (scan_leaves_nothing_behind Samples.catalog Samples.lan
              Samples.steady "scanme" [] [16%nat] 79 81 4 idle Hone)
    as (Hsocks & Hfiles & Hpool).
  split; [|split].
  - now apply incl_nil_eq.
  - exact Hfiles.
  - now apply Hpool.
Defined.

(** *** The console of an uninterrupted scan *)

Section Transcript.

Variable ports_data : json.
Variable net : network.
Variable clock : nat -> Z.
Variable host : string.

(** The lines of one turn of the loop. *)
Lemma turn_lines_In (start total n : Z) (k : nat) (p : Z) (m : message) :
  In m (turn_lines ports_data net clock host start total n k p) ->
  (exists r, probe ports_data net host p = Ret r /\ status r = OPEN
             /\ m = FoundOpenPort p (service r))
  \/ (exists r, probe ports_data net host p = Ret r
                /\ m = Progress (n + 1) total)
  \/ (exists r, probe ports_data net host p = Ret r
                /\ report_fails clock start total k = true
                /\ m = ErrorScanning p ZeroDivisionError)
  \/ (exists e, probe ports_data net host p = Raise e
                /\ m = ErrorScanning p e).
Proof.
  unfold turn_lines, found_line.
  destruct (probe ports_data net host p) as [r|e|]; [ | | contradiction].
  - rewrite in_app_iff. intros [Hin | Hin].
    + destruct (status r) eqn:Hst; [|contradiction].
      destruct Hin as [<- | []]. left. eauto.
    + destruct (reports n); [|contradiction].
      destruct (report_fails clock start total k) eqn:Hfails;
        destruct Hin as [<- | []]; [right; right; left | right; left]; eauto.
  - intros [<- | []]. right. right. right. eauto.
Qed.

Lemma turn_lines_raised (start total n : Z) (k : nat) (p : Z) (e : exn) :
  probe ports_data net host p = Raise e ->
  In (ErrorScanning p e)
    (turn_lines ports_data net clock host start total n k p).
Proof. unfold turn_lines. intros ->. now left. Qed.

Lemma turn_lines_found (start total n : Z) (k : nat) (p : Z)
    (r : probe_result) :
  probe ports_data net host p = Ret r -> status r = OPEN ->
  In (FoundOpenPort p (service r))
    (turn_lines ports_data net clock host start total n k p).
Proof.
  unfold turn_lines, found_line. intros -> ->.
  apply in_or_app. left. now left.
Qed.

Lemma loop_lines_In (start total : Z) (order : list Z) :
  forall n k,
  let lines := loop_lines ports_data net clock host start total n k order in
  (forall q e, In (ErrorScanning q e) lines ->
     In q order
     /\ (probe ports_data net host q = Raise e
         \/ (e = ZeroDivisionError
             /\ exists r, probe ports_data net host q = Ret r)))
  /\ (forall q e, In q order -> probe ports_data net host q = Raise e ->
        In (ErrorScanning q e) lines)
  /\ ((forall j, (k <= j)%nat -> report_fails clock start total j = false) ->
      forall q e, In (ErrorScanning q e) lines ->
                  probe ports_data net host q = Raise e)
  /\ (forall q label, In (FoundOpenPort q label) lines
                      <-> In q order
                          /\ exists r, probe ports_data net host q = Ret r
                                       /\ status r = OPEN
                                       /\ service r = label)
  /\ ~ In ScanInterrupted lines.
Proof.
  induction order as [|p rest IH]; intros n k; cbn zeta.
  - cbn. repeat split; try tauto; intros [[] _].
  - cbn [loop_lines].
    destruct (IH (counted ports_data net host n p)
                 (reads_after ports_data net host n k p))
      as (IHerr & IHraised & IHfine & IHfound & IHint).
    split; [|split; [|split; [|split]]].
    + intros q e. rewrite in_app_iff. intros [Hin | Hin].
      * apply turn_lines_In in Hin
          as [(r & _ & _ & [=]) | [(r & _ & [=])
             | [(r & Hr & _ & [= <- <-]) | (e' & He' & [= <- <-])]]];
          (split; [now left|]); eauto.
      * destruct (IHerr q e Hin) as [Hq Hcase]. split; [now right | exact Hcase].
    + intros q e [<- | Hq] Hraise; apply in_or_app.
      * left. now apply turn_lines_raised.
      * right. now apply IHraised.
    + intros Hfine q e. rewrite in_app_iff. intros [Hin | Hin].
      * apply turn_lines_In in Hin
          as [(r & _ & _ & [=]) | [(r & _ & [=])
             | [(r & Hr & Hfails & _) | (e' & He' & [= <- <-])]]];
          [|assumption].
        rewrite (Hfine k) in Hfails by lia. discriminate.
      * apply IHfine; [|assumption]. intros j Hj. apply Hfine.
        unfold reads_after in Hj.
        destruct (returns ports_data net host p && reports n); lia.
    + intros q label. rewrite in_app_iff, IHfound. split.
      * intros [Hin | [Hq Hr]]; [|split; [now right | exact Hr]].
        apply turn_lines_In in Hin
          as [(r & Hr & Hst & [= -> ->]) | [(r & _ & [=])
             | [(r & _ & _ & [=]) | (e' & _ & [=])]]].
        split; [now left | eauto].
      * intros [[<- | Hq] (r & Hr & Hst & <-)]; [left | right; eauto].
        now apply turn_lines_found.
    + rewrite in_app_iff. intros [Hin | Hin]; [|tauto].
      apply turn_lines_In in Hin
        as [(r & _ & _ & [=]) | [(r & _ & [=])
           | [(r & _ & _ & [=]) | (e' & _ & [=])]]].
Qed.

(** X9.  The console of an uninterrupted scan.  Every probe of the range
    that raised is reported with its port and its exception.  An error
    line for any other port of the range is that of a progress report that
    failed with ZeroDivisionError, for a probe that returned, and there is
    none when the clock moves.  The line "Found open port" is there for
    the OPEN ports of the range, with their labels, and for no other; the
    interrupt line is not printed. *)
Theorem scan_reports_errors (sched : list nat)
    (start_port end_port threads : Z) (w : world) :
  0 < threads ->
  exists lines,
    stdout (snd (PortScanner.scan ports_data net clock sched [] host
                   start_port end_port threads w))
    = (stdout w ++ lines)%list
    /\ (forall q e, In (ErrorScanning q e) lines ->
          start_port <= q <= end_port
          /\ (probe ports_data net host q = Raise e
              \/ (e = ZeroDivisionError
                  /\ exists r, probe ports_data net host q = Ret r)))
    /\ (forall q e, start_port <= q <= end_port ->
          probe ports_data net host q = Raise e ->
          In (ErrorScanning q e) lines)
    /\ (clock_moves clock ->
        forall q e, In (ErrorScanning q e) lines ->
                    probe ports_data net host q = Raise e)
    /\ (forall q label, In (FoundOpenPort q label) lines
                        <-> start_port <= q <= end_port
                            /\ exists r, probe ports_data net host q = Ret r
                                         /\ status r = OPEN
                                         /\ service r = label)
    /\ ~ In ScanInterrupted lines.
Proof.
  intros Hthreads.
  destruct (scan_run ports_data net clock host sched [] start_port end_port
              threads w Hthreads) as (_ & Hquiet & _).
  destruct (Hquiet eq_refl) as [_ Hout].
  eexists. split; [exact Hout|].
  destruct (loop_lines_In (clock O) (end_port - start_port + 1)
              (as_completed sched (range start_port (end_port + 1))) 0 1)
    as (Herr & Hraised & Hfine & Hfound & Hint).
  assert (Hrange : forall q,
            In q (as_completed sched (range start_port (end_port + 1)))
            <-> start_port <= q <= end_port).
  { intros q. split.
    - intros Hq.
      eapply Permutation_in in Hq; [|apply as_completed_Permutation].
      apply range_In in Hq. lia.
    - intros Hq.
      eapply Permutation_in; [symmetry; apply as_completed_Permutation|].
      apply range_In. lia. }
  split; [|split; [|split; [|split; [|assumption]]]].
  - intros q e Hin. destruct (Herr q e Hin) as [Hq Hcase].
    split; [now apply Hrange | exact Hcase].
  - intros q e Hq. apply Hraised. now apply Hrange.
  - intros Hmoves q e Hin.
    destruct (Herr q e Hin) as [Hq _]. apply Hrange in Hq.
    apply Hfine; [|assumption]. intros j Hj. unfold report_fails.
    apply orb_false_iff. split; apply Z.eqb_neq; [|lia].
    specialize (Hmoves j Hj). lia.
  - intros q label. now rewrite Hfound, Hrange.
Qed.

End Transcript.

Lemma scan_reports_errors_witness :
  exists lines,
    stdout (snd (PortScanner.scan Samples.catalog Samples.lan Samples.steady
                   [2; 0]%nat [] "scanme" 79 83 4 idle))
    = lines
    /\ In (ErrorScanning 82 OSError) lines
    /\ In (FoundOpenPort 80 (JStr "HTTP")) lines.
Proof.
  assert (Hpool : 0 < 4) by lia.
  destruct (scan_reports_errors Samples.catalog Samples.lan Samples.steady
              "scanme" [2; 0]%nat 79 83 4 idle Hpool)
    as (lines & Hout & _ & Herr & _ & Hfound & _).
  exists lines. split; [exact Hout|]. split.
  - apply Herr; [lia | reflexivity].
  - apply Hfound. split; [lia|]. exists Samples.http. repeat split.
Defined.

(** ** More on the command line *)

Lemma split_not_empty (sep : ascii) (s : string) : Cli.split sep s <> [].
Proof.
  destruct s as [|c rest]; cbn; [discriminate|].
  destruct (Ascii.eqb c sep); [discriminate|].
  destruct (Cli.split sep rest); discriminate.
Qed.

Lemma join_cons (sep : ascii) (piece : string) (pieces : list string) :
  pieces <> [] ->
  join sep (piece :: pieces) = (piece ++ String sep (join sep pieces))%string.
Proof. destruct pieces; [congruence | reflexivity]. Qed.

(** Splitting and joining again gives the string back. *)
Lemma join_split (sep : ascii) (s : string) : join sep (Cli.split sep s) = s.
Proof.
  induction s as [|c rest IH]; [reflexivity|].
  cbn [Cli.split]. pose proof (split_not_empty sep rest) as Hne.
  destruct (Ascii.eqb_spec c sep) as [->|Hc].
  - rewrite join_cons by assumption. cbn [append]. now rewrite IH.
  - destruct (Cli.split sep rest) as [|piece pieces]; [congruence|].
    destruct pieces as [|next pieces].
    + cbn in *. now rewrite IH.
    + rewrite join_cons in IH |- * by discriminate.
      cbn [append]. now rewrite IH.
Qed.

Lemma split_pieces (sep : ascii) (s : string) :
  Forall (fun piece => has_char sep piece = false) (Cli.split sep s).
Proof.
  induction s as [|c rest IH]; [repeat constructor|].
  cbn [Cli.split]. pose proof (split_not_empty sep rest) as Hne.
  destruct (Ascii.eqb_spec c sep) as [->|Hc].
  - constructor; [reflexivity | assumption].
  - destruct (Cli.split sep rest) as [|piece pieces]; [congruence|].
    inversion IH as [|? ? Hpiece Hrest]; subst.
    constructor; [|assumption]. cbn.
    destruct (Ascii.eqb_spec c sep); [contradiction | assumption].
Qed.

Lemma split_without_sep (sep : ascii) (s : string) :
  has_char sep s = false -> Cli.split sep s = [s].
Proof.
  induction s as [|c rest IH]; [reflexivity|].
  cbn. destruct (Ascii.eqb c sep); [discriminate|].
  cbn. intros Hrest. now rewrite IH.
Qed.

Lemma split_at_sep (sep : ascii) (l r : string) :
  has_char sep l = false ->
  Cli.split sep (l ++ String sep r) = l :: Cli.split sep r.
Proof.
  induction l as [|c rest IH]; cbn.
  - intros _. now rewrite Ascii.eqb_refl.
  - destruct (Ascii.eqb c sep); [discriminate|].
    cbn. intros Hrest. now rewrite IH.
Qed.

Section CommandLine.

Variable int_of_str : string -> option Z.
Variable can_write : string -> bool.

(** X10.  Which port ranges the command line accepts: exactly the
    strings made of two pieces around a single "-", each piece an integer
    for [int]; [parse_ports] then gives the two integers, in that order,
    and in every other case (no "-", two or more "-", a piece that is
    not an integer) it raises ValueError. *)
Theorem parse_ports_accepts (s : string) :
  (forall a b,
     Cli.parse_ports int_of_str s = Ret (a, b) <->
     exists l r,
       s = (l ++ "-" ++ r)%string
       /\ has_char "-" l = false /\ has_char "-" r = false
       /\ int_of_str l = Some a /\ int_of_str r = Some b)
  /\ ((forall a b, Cli.parse_ports int_of_str s <> Ret (a, b)) ->
      Cli.parse_ports int_of_str s = Raise ValueError).
Proof.
  split.
  - intros a b. unfold Cli.parse_ports. split.
    + intros Hparse.
      pose proof (join_split "-" s) as Hjoin.
      pose proof (split_pieces "-" s) as Hpieces.
      destruct (Cli.split "-" s) as [|l [|r [|x rest]]]; cbn in Hparse;
        try discriminate.
      * destruct (int_of_str l); discriminate.
      * destruct (int_of_str l) as [a'|] eqn:Hl; [|discriminate].
        destruct (int_of_str r) as [b'|] eqn:Hr; [|discriminate].
        injection Hparse as <- <-.
        apply Forall_cons_iff in Hpieces as [Hcl Hrest].
        apply Forall_cons_iff in Hrest as [Hcr _].
        exists l, r. cbn in Hjoin. auto.
      * destruct (int_of_str l); [|discriminate].
        destruct (int_of_str r); discriminate.
    + intros (l & r & -> & Hl & Hr & Ha & Hb).
      cbn [append]. rewrite split_at_sep, split_without_sep by assumption.
      cbn. now rewrite Ha, Hb.
  - intros Hno. unfold Cli.parse_ports in *.
    destruct (map int_of_str (Cli.split "-" s)) as [|[a|] [|[b|] [|x rest]]];
      try reflexivity.
    elim (Hno a b). reflexivity.
Qed.

Lemma report_results_returns (a : Cli.args) (results : list probe_result)
    (w : world) :
  match Cli.given (Cli.output a) with
  | Some path => results = [] \/ can_write path = true
  | None => True
  end ->
  fst (Cli.report_results can_write a results w) = Ret tt.
Proof.
  unfold Cli.report_results, Cli.write_report.
  destruct results as [|r rest]; [reflexivity|].
  destruct (Cli.given (Cli.output a)) as [path|].
  - intros [Hnil | Hwrite]; [discriminate|]. rewrite Hwrite.
    destruct (Cli.endswith path ".html"); run;
      now rewrite print_ports_run.
  - intros _. run. now rewrite print_ports_run.
Qed.

Lemma report_results_raises (a : Cli.args) (results : list probe_result)
    (w : world) (e : exn) :
  fst (Cli.report_results can_write a results w) = Raise e ->
  e = OSError
  /\ exists path, Cli.given (Cli.output a) = Some path
                  /\ can_write path = false.
Proof.
  unfold Cli.report_results, Cli.write_report.
  destruct results as [|r rest]; [discriminate|].
  destruct (Cli.given (Cli.output a)) as [path|].
  - destruct (can_write path) eqn:Hwrite.
    + destruct (Cli.endswith path ".html"); run;
        rewrite print_ports_run; discriminate.
    + destruct (Cli.endswith path ".html"); run; intros [= <-]; eauto.
  - run. rewrite print_ports_run. discriminate.
Qed.

(** X11.  The report file.  [main] writes at most one file after a scan:
    none when the scan found nothing (even with a target), when no target
    or the empty string is given, or when the target cannot be opened;
    otherwise the file at the target, rendered as HTML exactly when the
    path ends in ".html" and as text if not, from the results as the scan
    returned them. *)
Theorem report_file_written (a : Cli.args) (results : list probe_result)
    (w : world) :
  files (snd (Cli.report_results can_write a results w))
  = match results, Cli.given (Cli.output a) with
    | _ :: _, Some path =>
        if can_write path
        then (files w
              ++ [(path,
                   if Cli.endswith path ".html"
                   then HtmlReport (Cli.host a) results
                   else TextReport (Cli.host a) results)])%list
        else files w
    | _, _ => files w
    end.
Proof.
  unfold Cli.report_results, Cli.write_report.
  destruct results as [|r rest]; [now destruct (Cli.given (Cli.output a))|].
  destruct (Cli.given (Cli.output a)) as [path|].
  - destruct (can_write path); destruct (Cli.endswith path ".html"); run;
      rewrite ?print_ports_run; reflexivity.
  - run. now rewrite print_ports_run.
Qed.

(** X12.  How [main] ends.  With a port range that parses and a pool
    size of at least 1, [main] ends normally whenever it has no file to
    write or can write it: no catalog file, no network behaviour, no
    probe error, no order of completion and no interrupt of the scan makes
    it fail.  The only exceptions [main] is ever left with are ValueError,
    for a range that does not parse or a pool size below 1, and OSError,
    for a target that cannot be opened. *)
Theorem main_exits (ports_file : exn + json) (net : network)
    (clock : nat -> Z) (sched signals : list nat) (a : Cli.args)
    (w : world) :
  let returned :=
    fst (Cli.main int_of_str can_write ports_file net clock sched signals a
           w) in
  ((exists bounds, Cli.parse_ports int_of_str (Cli.ports a) = Ret bounds) ->
   0 < Cli.threads a ->
   match Cli.given (Cli.output a) with
   | Some path => can_write path = true
   | None => True
   end ->
   returned = Ret tt)
  /\ (forall e, returned = Raise e ->
       (e = ValueError
        /\ (Cli.parse_ports int_of_str (Cli.ports a) = Raise ValueError
            \/ Cli.threads a <= 0))
       \/ (e = OSError
           /\ exists path, Cli.given (Cli.output a) = Some path
                           /\ can_write path = false))
  /\ returned <> Interrupt.
Proof.
  cbn zeta.
  destruct (Cli.parse_ports int_of_str (Cli.ports a)) as [[lo hi]|e0|]
    eqn:Hparse.
  - rewrite (main_after_parse can_write int_of_str ports_file net clock sched
               signals a lo hi w Hparse).
    destruct (init_leaves_container ports_file w) as (ports_data & Hinit & _).
    destruct (PortScanner.init ports_file w) as [loaded w1].
    cbn [fst] in Hinit. subst loaded. cbn zeta.
    set (w2 := snd (print (StartingScan (Cli.host a)) w1)).
    assert (Hscan :
      (exists l, fst (PortScanner.scan ports_data net clock sched signals
                        (Cli.host a) lo hi (Cli.threads a) w2) = Ret l)
      \/ fst (PortScanner.scan ports_data net clock sched signals
                (Cli.host a) lo hi (Cli.threads a) w2) = Interrupt
      \/ (fst (PortScanner.scan ports_data net clock sched signals
                 (Cli.host a) lo hi (Cli.threads a) w2) = Raise ValueError
          /\ Cli.threads a <= 0)).
    { destruct (Z.lt_ge_cases 0 (Cli.threads a)) as [Hpool | Hnopool].
      - destruct (scan_run ports_data net clock (Cli.host a) sched signals lo
                    hi (Cli.threads a) w2 Hpool) as ([Hret | Hint] & _).
        + left. eauto.
        + right. now left.
      - destruct (scan_without_pool ports_data net clock (Cli.host a) sched
                    signals lo hi (Cli.threads a) w2 Hnopool)
          as ([Hraise | [Hret | Hint]] & _).
        + right. right. auto.
        + left. eauto.
        + right. now left. }
    destruct (PortScanner.scan ports_data net clock sched signals (Cli.host a)
                lo hi (Cli.threads a) w2) as [scanned w3].
    cbn [fst] in Hscan.
    destruct Hscan as [(l & ->) | [-> | [-> Hnopool]]].
    + split; [|split].
      * intros _ _ Hwrite. apply report_results_returns.
        destruct (Cli.given (Cli.output a)); auto.
      * intros e He. right. now apply report_results_raises in He.
      * apply report_results_not_interrupted.
    + split; [reflexivity|]. split; discriminate.
    + split; [intros _ Hpool; lia|].
      split; [|discriminate]. intros e [= <-]. left. auto.
  - assert (He0 : e0 = ValueError).
    { unfold Cli.parse_ports in Hparse.
      destruct (map int_of_str (Cli.split "-" (Cli.ports a)))
        as [|[x|] [|[y|] [|z rest]]]; congruence. }
    subst e0. unfold Cli.main, eval. cbn. rewrite Hparse. cbn.
    split; [intros [bounds Hb]; discriminate|].
    split; [|discriminate]. intros e [= <-]. left. auto.
  - unfold Cli.parse_ports in Hparse.
    destruct (map int_of_str (Cli.split "-" (Cli.ports a)))
      as [|[x|] [|[y|] [|z rest]]]; discriminate.
Qed.

End CommandLine.

Lemma main_exits_witness :
  fst (Cli.main Samples.int_of_decimal (fun _ => true)
         (inl OSError) Samples.lan Samples.steady [3; 1]%nat [10%nat]
         {| Cli.host := "scanme"; Cli.ports := "78-83"; Cli.threads := 4;
            Cli.output := Some "report.html" |} idle)
  = Ret tt.
Proof.
  apply (main_exits Samples.int_of_decimal (fun _ => true)).
  - now exists (78, 83).
  - cbn. lia.
  - reflexivity.
Defined.

(** ** The rendered reports *)

Lemma append_assoc (a b c : string) :
  ((a ++ b) ++ c)%string = (a ++ b ++ c)%string.
Proof. induction a as [|x a IH]; cbn; [reflexivity | now rewrite IH]. Qed.

Lemma append_empty_r (a : string) : (a ++ "")%string = a.
Proof. induction a as [|x a IH]; cbn; [reflexivity | now rewrite IH]. Qed.

Lemma prefix_append (n b : string) : String.prefix n (n ++ b) = true.
Proof.
  induction n as [|x n IH]; cbn; [now destruct b|].
  destruct (ascii_dec x x); [assumption | congruence].
Qed.

Lemma prefix_split (n : string) :
  forall h, String.prefix n h = true -> exists b, h = (n ++ b)%string.
Proof.
  induction n as [|x n IH]; intros h Hp; [now exists h|].
  destruct h as [|y h]; [discriminate|]. cbn in Hp.
  destruct (ascii_dec x y) as [->|]; [|discriminate].
  destruct (IH h Hp) as [b ->]. now exists b.
Qed.

Lemma str_contains_unfold (n hay : string) :
  str_contains n hay
  = if String.prefix n hay then true
    else match hay with
         | EmptyString => false
         | String _ rest => str_contains n rest
         end.
Proof. destruct hay; reflexivity. Qed.

(** [needle in hay] holds exactly when the hay is some text, the needle,
    and some more text. *)
Lemma str_contains_iff (n hay : string) :
  str_contains n hay = true <-> exists a b, hay = (a ++ n ++ b)%string.
Proof.
  split.
  - induction hay as [|c rest IH]; rewrite str_contains_unfold.
    + destruct (String.prefix n "") eqn:Hp; [|discriminate].
      intros _. destruct (prefix_split n "" Hp) as [b Hb].
      now exists ""%string, b.
    + destruct (String.prefix n (String c rest)) eqn:Hp.
      * intros _. destruct (prefix_split n _ Hp) as [b Hb].
        now exists ""%string, b.
      * intros Hrest. destruct (IH Hrest) as (a & b & ->).
        now exists (String c a), b.
  - intros (a & b & ->). induction a as [|c a IH].
    + cbn [append]. rewrite str_contains_unfold.
      now rewrite prefix_append.
    + cbn [append]. rewrite str_contains_unfold, IH.
      now destruct (String.prefix n (String c (a ++ n ++ b))).
Qed.

Lemma str_contains_within (n x s y : string) :
  str_contains n s = true -> str_contains n (x ++ s ++ y) = true.
Proof.
  rewrite !str_contains_iff. intros (a & b & ->).
  exists (x ++ a)%string, (b ++ y)%string.
  now rewrite !append_assoc.
Qed.

Lemma str_contains_join (n : string) (sep : ascii) (pieces : list string)
    (piece : string) :
  In piece pieces -> str_contains n piece = true ->
  str_contains n (join sep pieces) = true.
Proof.
  intros Hin Hpiece. induction pieces as [|x rest IH]; [contradiction|].
  destruct rest as [|y rest].
  - destruct Hin as [-> | []]. exact Hpiece.
  - rewrite join_cons by discriminate. destruct Hin as [-> | Hin].
    + rewrite <- (append_empty_r piece) in Hpiece.
      apply (str_contains_within n "" (piece ++ "")) with (y := ""%string)
        in Hpiece.
      cbn [append] in Hpiece. rewrite !append_empty_r in Hpiece.
      apply str_contains_iff in Hpiece as (a & b & ->).
      apply str_contains_iff.
      exists a, (b ++ String sep (join sep (y :: rest)))%string.
      now rewrite !append_assoc.
    + specialize (IH Hin). apply str_contains_iff in IH as (a & b & Hab).
      apply str_contains_iff. rewrite Hab.
      exists (x ++ String sep a)%string, b.
      rewrite append_assoc. cbn [append]. reflexivity.
Qed.

Lemma str_contains_glue (n : string) (pieces : list string) (piece : string) :
  In piece pieces -> str_contains n piece = true ->
  str_contains n (glue pieces) = true.
Proof.
  intros Hin Hpiece. induction pieces as [|x rest IH]; [contradiction|].
  cbn [glue]. destruct Hin as [-> | Hin].
  - rewrite <- (append_empty_r (piece ++ glue rest)), append_assoc.
    now apply (str_contains_within n "").
  - rewrite <- (append_empty_r (glue rest)).
    apply str_contains_within. now apply IH.
Qed.

Lemma fold_left_append (A : Type) (f : A -> string) (l : list A) :
  forall init,
  fold_left (fun text x => (text ++ f x)%string) l init
  = (init ++ glue (map f l))%string.
Proof.
  induction l as [|x rest IH]; intros init; cbn.
  - now rewrite append_empty_r.
  - now rewrite IH, append_assoc.
Qed.

Section Rendered.

Variable str_of : json -> string.

Lemma cell_in_row (r : probe_result) (cell : string) :
  cell = str (port r) \/ cell = status_text (status r)
  \/ cell = str_of (service r) ->
  str_contains ("<td>" ++ cell ++ "</td>") (html_row str_of r) = true.
Proof.
  intros Hcell. unfold html_row, lines_text.
  apply str_contains_join
    with (piece := ("                <td>" ++ cell ++ "</td>")%string).
  - destruct Hcell as [-> | [-> | ->]]; cbn; auto 6.
  - apply str_contains_iff. exists "                "%string, ""%string.
    rewrite append_empty_r. reflexivity.
Qed.

(** X13.  The HTML report is the head, one row per result in the order
    of the results, and the foot; its title names the host, and for every
    result there are the cells with its port, its status and its label,
    the host and the label being copied as they are. *)
Theorem html_report_contents (results : list probe_result)
    (host start_time end_time duration : string) :
  let html :=
    generate_html_report str_of results host start_time end_time duration in
  html = (html_head host start_time end_time duration
          ++ glue (map (html_row str_of) results) ++ html_foot)%string
  /\ str_contains ("<title>Port Scan Report - " ++ host ++ "</title>") html
     = true
  /\ (forall r, In r results ->
       str_contains ("<td>" ++ str (port r) ++ "</td>") html = true
       /\ str_contains ("<td>" ++ status_text (status r) ++ "</td>") html
          = true
       /\ str_contains ("<td>" ++ str_of (service r) ++ "</td>") html = true).
Proof.
  cbn zeta.
  assert (Hshape :
    generate_html_report str_of results host start_time end_time duration
    = (html_head host start_time end_time duration
       ++ glue (map (html_row str_of) results) ++ html_foot)%string).
  { unfold generate_html_report. cbn zeta.
    now rewrite fold_left_append, append_assoc. }
  rewrite Hshape. split; [reflexivity|]. split.
  - rewrite <- (append_empty_r (html_head _ _ _ _)) at 1.
    rewrite append_assoc. apply (str_contains_within _ "").
    unfold html_head, lines_text.
    apply str_contains_join
      with (piece := ("        <title>Port Scan Report - " ++ host
                      ++ "</title>")%string).
    + cbn. auto 8.
    + apply str_contains_iff. exists "        "%string, ""%string.
      rewrite append_empty_r. reflexivity.
  - intros r Hr.
    assert (Hcell : forall cell,
              str_contains cell (html_row str_of r) = true ->
              str_contains cell
                (html_head host start_time end_time duration
                 ++ glue (map (html_row str_of) results) ++ html_foot)
              = true).
    { intros cell Hcell. apply str_contains_within.
      apply str_contains_glue with (piece := html_row str_of r);
        [now apply in_map | assumption]. }
    repeat split; apply Hcell, cell_in_row; auto.
Qed.

(** X14.  The text report is two header lines, with the host and the two
    timestamps, and then one line "Port <n>: <status> - <service>" per
    result, in the order of the results. *)
Theorem text_report_contents (results : list probe_result)
    (host start_time end_time : string) :
  let text := text_report str_of results host start_time end_time in
  text = ("Port Scan Report for " ++ host ++ Cli.newline
          ++ "Scan Time: " ++ start_time ++ " to " ++ end_time
          ++ Cli.newline ++ Cli.newline
          ++ glue (map (text_line str_of) results))%string
  /\ (forall r, In r results ->
       str_contains ("Port " ++ str (port r) ++ ": "
                     ++ status_text (status r) ++ " - "
                     ++ str_of (service r) ++ Cli.newline) text = true).
Proof.
  cbn zeta.
  assert (Hshape :
    text_report str_of results host start_time end_time
    = ("Port Scan Report for " ++ host ++ Cli.newline
       ++ "Scan Time: " ++ start_time ++ " to " ++ end_time
       ++ Cli.newline ++ Cli.newline
       ++ glue (map (text_line str_of) results))%string).
  { unfold text_report. cbn zeta. rewrite fold_left_append.
    rewrite !append_assoc. reflexivity. }
  rewrite Hshape. split; [reflexivity|].
  intros r Hr.
  change ("Port " ++ str (port r) ++ ": " ++ status_text (status r) ++ " - "
          ++ str_of (service r) ++ Cli.newline)%string
    with (text_line str_of r).
  assert (Hglue : str_contains (text_line str_of r)
                    (glue (map (text_line str_of) results)) = true).
  { apply str_contains_glue with (piece := text_line str_of r);
      [now apply in_map|].
    apply str_contains_iff. exists ""%string, ""%string.
    now rewrite append_empty_r. }
  apply str_contains_iff in Hglue as (a & b & ->).
  apply str_contains_iff.
  exists ("Port Scan Report for " ++ host ++ Cli.newline
          ++ "Scan Time: " ++ start_time ++ " to " ++ end_time
          ++ Cli.newline ++ Cli.newline ++ a)%string, b.
  rewrite !append_assoc. reflexivity.
Qed.

End Rendered.

(** The report the test of [generate_html_report] builds. *)
Example html_report_sample :
  let html := generate_html_report Samples.label_str [Samples.http]
                "google.com" "2023-01-01 12:00:00" "2023-01-01 12:00:10"
                "10.00" in
  map (fun needle => str_contains needle html)
    ["<title>Port Scan Report - google.com</title>"; "<td>80</td>";
     "<td>OPEN</td>"; "<td>HTTP</td>"; "<td>CLOSED</td>"]
  = [true; true; true; true; false].
Proof. vm_compute. reflexivity. Qed.

(** ** The cadence of the progress lines and the order of submission *)

Lemma range_cons (a b : Z) : a < b -> range a b = a :: range (a + 1) b.
Proof.
  intros Hlt. unfold range.
  replace (Z.to_nat (b - a)) with (S (Z.to_nat (b - (a + 1)))) by lia.
  cbn [seq map]. f_equal; [lia|].
  rewrite <- seq_shift, map_map. apply map_ext. intros i. lia.
Qed.

Lemma range_sorted (a b : Z) : StronglySorted Z.lt (range a b).
Proof.
  destruct (Z.le_gt_cases b a) as [Hle | Hlt];
    [rewrite range_empty by assumption; constructor|].
  remember (Z.to_nat (b - a)) as n eqn:Hn. revert a Hn Hlt.
  induction n as [|n IH]; intros a Hn Hlt; [lia|].
  rewrite range_cons by assumption. constructor.
  - destruct (Z.le_gt_cases b (a + 1)) as [Hle | Hlt'];
      [rewrite range_empty by assumption; constructor|].
    apply IH; lia.
  - apply Forall_forall. intros x Hx. apply range_In in Hx. lia.
Qed.

Lemma firstn_sorted (k : nat) (l : list Z) :
  StronglySorted Z.lt l -> StronglySorted Z.lt (firstn k l).
Proof.
  intros Hsorted. revert k.
  induction Hsorted as [|x rest Hrest IH Hx]; intros [|k]; cbn;
    try constructor; auto.
  apply Forall_forall. intros y Hy.
  rewrite Forall_forall in Hx. apply Hx.
  rewrite <- (firstn_skipn k rest). apply in_or_app. now left.
Qed.

Lemma filter_Permutation (A : Type) (f : A -> bool) (l l' : list A) :
  Permutation l l' -> Permutation (filter f l) (filter f l').
Proof.
  induction 1 as [|x l l' _ IH|x y l|l l' l'' _ IH1 _ IH2]; cbn.
  - constructor.
  - destruct (f x); [now constructor | assumption].
  - destruct (f x), (f y); try reflexivity. apply perm_swap.
  - now transitivity (filter f l').
Qed.

Section Cadence.

Variable ports_data : json.
Variable net : network.
Variable clock : nat -> Z.
Variable host : string.

Lemma thousandth_counted (n : Z) :
  0 <= n -> (n + 1) mod 1000 = 0 -> (n + 1) / 1000 = n / 1000 + 1.
Proof. intros Hn Hmod. Z.to_euclidean_division_equations. lia. Qed.

Lemma other_counted (n : Z) :
  0 <= n -> (n + 1) mod 1000 <> 0 -> (n + 1) / 1000 = n / 1000.
Proof. intros Hn Hmod. Z.to_euclidean_division_equations. lia. Qed.

(** The progress lines of the loop: one at each multiple of 1000 of the
    probes counted whose report does not fail; the report made at the
    count [c] uses the reading number [c / 1000] of the clock. *)
Lemma loop_lines_progress (start total : Z) (order : list Z) :
  forall n k,
  0 <= n -> k = S (Z.to_nat (n / 1000)) ->
  progress_lines (loop_lines ports_data net clock host start total n k order)
  = map (fun c => (c, total))
      (filter (fun c => (c mod 1000 =? 0)
                        && negb (report_fails clock start total
                                   (Z.to_nat (c / 1000))))
         (range (n + 1)
            (n + Z.of_nat (List.length
                             (filter (returns ports_data net host) order))
             + 1))).
Proof.
  induction order as [|p rest IH]; intros n k Hn Hk.
  - cbn. now rewrite range_empty by lia.
  - cbn [loop_lines filter]. unfold progress_lines in *.
    rewrite flat_map_app.
    unfold turn_lines, counted, reads_after, reports, returns in *.
    pose proof (probe_not_interrupted ports_data net host p) as Hni.
    assert (Hq : 0 <= n / 1000) by (apply Z.div_pos; lia).
    destruct (probe ports_data net host p) as [r|e|]; [ | | congruence].
    + rewrite flat_map_app. fold (progress_lines (found_line p (Ret r))).
      rewrite found_line_no_progress. cbn [app List.length andb].
      replace (n + Z.of_nat (S (List.length
                 (filter (fun p0 => match probe ports_data net host p0 with
                                    | Ret _ => true
                                    | _ => false
                                    end) rest))) + 1)
        with (n + 1 + Z.of_nat (List.length
                (filter (fun p0 => match probe ports_data net host p0 with
                                   | Ret _ => true
                                   | _ => false
                                   end) rest)) + 1) by lia.
      rewrite (range_cons (n + 1)) by lia. cbn [filter].
      destruct (Z.eqb_spec ((n + 1) mod 1000) 0) as [Hmod | Hmod];
        cbn [andb].
      * assert (Hread : Z.to_nat ((n + 1) / 1000) = k)
          by (rewrite thousandth_counted by assumption; lia).
        rewrite Hread.
        rewrite (IH (n + 1) (S k)) by
          (try lia; rewrite thousandth_counted by assumption; lia).
        now destruct (report_fails clock start total k).
      * rewrite (IH (n + 1) k) by
          (try lia; rewrite other_counted by assumption; lia).
        reflexivity.
    + cbn [flat_map app]. now apply IH.
Qed.

(** X15.  The cadence of the progress lines of an uninterrupted scan: one
    line at every multiple of 1000 of the probes that returned a result,
    unless the clock then reads what it read at the start (the report of
    the count [c] is made with reading number [c / 1000]); the lines come
    in increasing order and show the total of the range.  A probe that
    raised is not counted. *)
Theorem scan_progress_cadence (sched : list nat)
    (start_port end_port threads : Z) (w : world) :
  0 < threads ->
  exists lines,
    stdout (snd (PortScanner.scan ports_data net clock sched [] host
                   start_port end_port threads w))
    = (stdout w ++ lines)%list
    /\ progress_lines lines
       = map (fun c => (c, end_port - start_port + 1))
           (filter (fun c => (c mod 1000 =? 0)
                             && negb (clock (Z.to_nat (c / 1000)) =? clock O))
              (range 1
                 (Z.of_nat (List.length
                              (filter (returns ports_data net host)
                                 (range start_port (end_port + 1))))
                  + 1))).
Proof.
  intros Hthreads.
  destruct (scan_run ports_data net clock host sched [] start_port end_port
              threads w Hthreads) as (_ & Hquiet & _).
  destruct (Hquiet eq_refl) as [_ Hout].
  eexists. split; [exact Hout|].
  rewrite loop_lines_progress by (try lia; reflexivity). cbn [Z.add].
  assert (Hcount :
    List.length (filter (returns ports_data net host)
                   (as_completed sched (range start_port (end_port + 1))))
    = List.length (filter (returns ports_data net host)
                     (range start_port (end_port + 1)))).
  { apply Permutation_length, filter_Permutation, as_completed_Permutation. }
  rewrite Hcount. f_equal.
  destruct (Z.le_gt_cases (end_port + 1) start_port) as [Hempty | Hsome].
  - rewrite (range_empty start_port) by assumption. reflexivity.
  - apply filter_ext. intros c. unfold report_fails.
    replace (end_port - start_port + 1 =? 0) with false
      by (symmetry; apply Z.eqb_neq; lia).
    rewrite orb_false_r. f_equal. f_equal.
    destruct (Z.eqb_spec (clock (Z.to_nat (c / 1000)) - clock O) 0),
      (Z.eqb_spec (clock (Z.to_nat (c / 1000))) (clock O));
      try reflexivity; lia.
Qed.

(** X16.  The order of submission: [scan] submits the ports of the
    range in ascending order, one task per port and none twice; without a
    signal it submits all of them, and a first signal delivered while it
    submits cuts the sequence short after the ports submitted so far (the
    entry of [scan] and the pool take one delivery point each before the
    first submit). *)
Theorem scan_submits_in_order (sched signals : list nat)
    (start_port end_port threads : Z) (w : world) :
  0 < threads ->
  let ports := range start_port (end_port + 1) in
  let sent := match signals with
              | [] => ports
              | n :: _ => firstn (n - 2) ports
              end in
  submitted (snd (PortScanner.scan ports_data net clock sched signals host
                    start_port end_port threads w))
  = (submitted w ++ sent)%list
  /\ StronglySorted Z.lt sent.
Proof.
  intros Hthreads. cbn zeta.
  destruct (scan_run ports_data net clock host sched signals start_port
              end_port threads w Hthreads) as (_ & _ & _ & Hsub & _).
  rewrite Hsub. destruct signals as [|n later].
  - rewrite firstn_all. split; [reflexivity|]. apply range_sorted.
  - split; [reflexivity|]. apply firstn_sorted, range_sorted.
Qed.

End Cadence.

(** Ports 1 to 2500 with a clock whose third reading falls back to the
    first: 2499 probes return, the report at 1000 is printed, and the
    report at 2000 fails. *)
Lemma scan_progress_cadence_witness :
  exists lines,
    stdout (snd (PortScanner.scan Samples.catalog Samples.lan
                   Samples.stepped_back [] [] "scanme" 1 2500 16 idle))
    = lines
    /\ progress_lines lines = [(1000, 2500)].
Proof.
  assert (Hpool : 0 < 16) by lia.
  destruct (scan_progress_cadence Samples.catalog Samples.lan
              Samples.stepped_back "scanme" [] 1 2500 16 idle Hpool)
    as (lines & Hout & Hprogress).
  exists lines. split; [exact Hout|].
  rewrite Hprogress. vm_compute. reflexivity.
Defined.

Lemma scan_submits_in_order_witness :
  submitted (snd (PortScanner.scan Samples.catalog Samples.lan Samples.steady
                    [] [4%nat] "scanme" 78 83 4 idle))
  = [78; 79].
Proof.
  assert (Hpool : 0 < 4) by lia.
  exact (proj1 (scan_submits_in_order Samples.catalog Samples.lan
                  Samples.steady "scanme" [] [4%nat] 78 83 4 idle Hpool)).
Defined.
